(** * Optimized quiz performance handler: a shallow embedding

    The script [assets/js/optimized-quiz-performance.js] is a jQuery plugin
    made of a TTL media cache, a named debouncer, a question locator, a media
    fetcher and renderer, a mutation-observer based answer watcher and a
    teardown routine.  Its functions are embedded here as Rocq functions over
    an explicit [World]: the script's own [state] object together with the
    parts of the browser the script talks to (clock, timer table, mutation
    observers, the DOM, the network log).

    What the browser and jQuery compute is data of the model: an element
    carries its class list, whether [:visible] holds for it and what
    [.data('question-id')] reads from it; [Date.now()] is the world's clock;
    a media request is an entry in the log of effects and its answer an
    event.  The event loop is a function from events to worlds, one handler
    run per event, and timers fire when time is advanced past their due
    time. *)

From stdpp Require Import gmap strings list fin_maps pretty.

Local Open Scope Z_scope.
Set Warnings "-register-all".

(** ** JavaScript values *)

(** Primitive values.  Numbers are modelled by integers: the script only
    tests them for truthiness, adds one to a sibling index and uses them as
    map keys, so neither fractions nor NaN play a role. *)
Inductive Prim :=
  | PUndefined
  | PNull
  | PBool (b : bool)
  | PNum (n : Z)
  | PStr (s : string).

(** Values as produced by [JSON.parse] (plus [undefined], which property
    reads can return).  An object is the list of its own properties. *)
Inductive JsVal :=
  | VPrim (p : Prim)
  | VArr (items : list JsVal)
  | VObj (fields : list (string * JsVal)).

Global Instance Prim_eq_dec : EqDecision Prim.
Proof. solve_decision. Defined.

Definition Prim_code (p : Prim) : unit + unit + bool + Z + string :=
  match p with
  | PUndefined => inl (inl (inl (inl ())))
  | PNull => inl (inl (inl (inr ())))
  | PBool b => inl (inl (inr b))
  | PNum n => inl (inr n)
  | PStr s => inr s
  end.

Definition Prim_decode (c : unit + unit + bool + Z + string) : Prim :=
  match c with
  | inl (inl (inl (inl _))) => PUndefined
  | inl (inl (inl (inr _))) => PNull
  | inl (inl (inr b)) => PBool b
  | inl (inr n) => PNum n
  | inr s => PStr s
  end.

Global Instance Prim_countable : Countable Prim.
Proof. apply (inj_countable' Prim_code Prim_decode). by intros []. Defined.

Definition undefined : JsVal := VPrim PUndefined.
Definition null : JsVal := VPrim PNull.

(** ToBoolean. *)
Definition truthy_prim (p : Prim) : bool :=
  match p with
  | PUndefined | PNull => false
  | PBool b => b
  | PNum n => negb (n =? 0)
  | PStr s => negb (String.eqb s "")
  end.

Definition truthy (v : JsVal) : bool :=
  match v with
  | VPrim p => truthy_prim p
  | VArr _ | VObj _ => true
  end.

(** [a || b] on primitives. *)
Definition por (a b : Prim) : Prim := if truthy_prim a then a else b.

Fixpoint assoc (name : string) (fields : list (string * JsVal)) : JsVal :=
  match fields with
  | [] => undefined
  | (k, v) :: rest => if String.eqb k name then v else assoc name rest
  end.

(** [v.name] for the property names the script reads ([success], [data],
    [media], [type], [url], [alt]): none of them lives on a prototype, so
    only objects can answer with something else than [undefined].  Reading a
    property of [undefined] or [null] raises a TypeError ([None]). *)
Definition get_prop (v : JsVal) (name : string) : option JsVal :=
  match v with
  | VPrim PUndefined | VPrim PNull => None
  | VPrim _ | VArr _ => Some undefined
  | VObj fields => Some (assoc name fields)
  end.

(** [v === s] for a string literal [s]. *)
Definition is_str (v : JsVal) (s : string) : bool :=
  match v with
  | VPrim (PStr t) => String.eqb t s
  | _ => false
  end.

(** ** Configuration and host globals *)

Definition debounceDelay : Z := 100.
Definition cacheTimeout : Z := 30000.

(** [lilacQuizSidebar], supplied by the hosting page. *)
Record HostGlobals := mkHost {
  ajaxUrl : string;
  nonce : string;
  enforceHint : bool }.

(** ** The DOM as the locator sees it *)

(** An element: its class list, whether jQuery's [:visible] holds for it,
    what [.data('question-id')] reads from its [data-question-id] attribute
    ([None] when the attribute is absent), and its child elements. *)
Inductive Elem :=
  | El (classes : list string) (visible : bool) (qid : option Prim)
       (children : list Elem).

Definition classes (e : Elem) := let 'El c _ _ _ := e in c.
Definition visible (e : Elem) := let 'El _ v _ _ := e in v.
Definition qid (e : Elem) := let 'El _ _ q _ := e in q.
Definition children (e : Elem) := let 'El _ _ _ cs := e in cs.

Definition has_class (c : string) (e : Elem) : bool :=
  existsb (String.eqb c) (classes e).

(** An element in its place: sibling index and chain of ancestors, nearest
    first. *)
Record Located := mkLocated {
  l_el : Elem;
  l_index : nat;
  l_ancestors : list Elem }.

(** All elements of a subtree, in document order. *)
Fixpoint locate (anc : list Elem) (i : nat) (e : Elem) : list Located :=
  match e with
  | El _ _ _ cs =>
      mkLocated e i anc ::
      (fix go (j : nat) (l : list Elem) : list Located :=
         match l with
         | [] => []
         | c :: r => locate (e :: anc) j c ++ go (S j) r
         end) 0%nat cs
  end.

Fixpoint subtree (e : Elem) : list Elem :=
  match e with
  | El _ _ _ cs =>
      e :: (fix go (l : list Elem) : list Elem :=
              match l with
              | [] => []
              | c :: r => subtree c ++ go r
              end) cs
  end.

Definition descendants (e : Elem) : list Elem := tail (subtree e).

(** The fragment of CSS selectors the script uses. *)
Inductive Simple :=
  | Class (c : string)
  | PseudoVisible
  | AttrQuestionId.

Definition Compound := list Simple.
(** A chain of compounds joined by the descendant combinator; the last one
    is the subject. *)
Definition Selector := list Compound.

Definition matches_simple (e : Elem) (s : Simple) : bool :=
  match s with
  | Class c => has_class c e
  | PseudoVisible => visible e
  | AttrQuestionId => bool_decide (is_Some (qid e))
  end.

Definition matches_compound (e : Elem) (c : Compound) : bool :=
  forallb (matches_simple e) c.

(** [need] lists the compounds still to be found among the ancestors,
    innermost requirement first. *)
Fixpoint match_ancestors (anc : list Elem) (need : list Compound) : bool :=
  match need with
  | [] => true
  | c :: need' =>
      match anc with
      | [] => false
      | a :: anc' =>
          if matches_compound a c then match_ancestors anc' need'
          else match_ancestors anc' need
      end
  end.

Definition matches (sel : Selector) (x : Located) : bool :=
  match rev sel with
  | [] => false
  | subject :: need =>
      matches_compound (l_el x) subject && match_ancestors (l_ancestors x) need
  end.

(** [$(selector)]: the matching elements of the document, in document
    order. *)
Definition query (root : Elem) (sel : Selector) : list Located :=
  filter (λ x, matches sel x = true) (locate [] 0%nat root).

(** [$el.data('question-id')]; [undefined] on an empty set. *)
Definition data_question_id (e : option Elem) : Prim :=
  match e with
  | Some e => default PUndefined (qid e)
  | None => PUndefined
  end.

(** [$el.find('[data-question-id]')]. *)
Definition find_question_id (e : Elem) : list Elem :=
  filter (λ d, matches_compound d [AttrQuestionId] = true) (descendants e).

Definition sel_reviewTarget : Selector :=
  [[Class "wpProQuiz_listItem"; Class "wpProQuiz_reviewQuestionTarget"]].
Definition sel_visibleItem : Selector :=
  [[Class "wpProQuiz_listItem"; PseudoVisible]].
Definition sel_listedItem : Selector :=
  [[Class "wpProQuiz_questionList"]; [Class "wpProQuiz_listItem"]].

Definition selectors : list Selector :=
  [sel_reviewTarget; sel_visibleItem; sel_listedItem].

(** The expression
    [$question.data('question-id') ||
     $question.find('[data-question-id]').data('question-id') ||
     $question.index() + 1]. *)
Definition questionIdOf (q : Located) : Prim :=
  por (data_question_id (Some (l_el q)))
      (por (data_question_id (head (find_question_id (l_el q))))
           (PNum (Z.of_nat (l_index q) + 1))).

(** The [for (const selector of selectors)] loop with its early return. *)
Fixpoint probe (root : Elem) (sels : list Selector) : Prim :=
  match sels with
  | [] => PNull
  | selector :: rest =>
      match head (query root selector) with
      | Some question => questionIdOf question
      | None => probe root rest
      end
  end.

Definition getCurrentQuestionId (root : Elem) : Prim := probe root selectors.

(** ** The world the script runs in *)

Record CacheEntry := mkEntry {
  data : JsVal;
  timestamp : Z }.

(** [$question]: the result of [$input.closest('.wpProQuiz_listItem')] as far
    as the script uses it, namely its sibling index and whether it contains a
    hint button ([.wpProQuiz_tip]). *)
Record QuestionEl := mkQuestion {
  q_index : nat;
  q_tip : bool }.

(** A clicked answer input: its enclosing list item and its enclosing answer
    wrapper ([.wpProQuiz_questionListItem]), either of which may be missing. *)
Record InputEl := mkInput {
  i_question : option QuestionEl;
  i_wrapper : option nat }.

(** The closures handed to [debounce]. *)
Inductive Func :=
  | FNavigation
  | FAnswerCheck (question : option QuestionEl) (input : InputEl).

(** A pending [setTimeout] timer. *)
Record Timer := mkTimer {
  t_id : nat;
  t_due : Z;
  t_key : string;
  t_func : Func }.

(** A [MutationObserver] created by the script, with the variables its
    callback closes over. *)
Record Observer := mkObserver {
  o_question : option QuestionEl;
  o_target : nat;
  o_connected : bool }.

Inductive MutationType := attributes | childList | characterData.

Record MutationRecord := mkMutation {
  m_type : MutationType;
  m_attributeName : option string;
  m_target : nat }.

(** Children of the media container. *)
Inductive MediaNode :=
  | Img (src alt : JsVal) (loading : string)
  | Video (src : JsVal) (controls : bool) (preload : string)
  | Div (cls text : string).

(** Writes that leave the script: network requests and changes to elements
    owned by the quiz widget. *)
Inductive Effect :=
  | Fetch (url action : string) (question_id : Prim) (token : string)
  | NavDisabled (disabled : bool)
  | HintRequired (question : QuestionEl).

(** The script's [state] object. *)
Record State := mkState {
  initialized : bool;
  currentQuestion : Prim;
  mediaCache : gmap Prim CacheEntry;
  observers : list nat;
  debounceTimers : gmap string nat;
  retryCount : nat }.

Record World := mkWorld {
  state : State;
  host : HostGlobals;
  (** [Date.now()] *)
  clock : Z;
  (** the browser's table of pending timers and its next timer handle *)
  timers : list Timer;
  nextTimer : nat;
  (** every observer created so far; an observer's handle is its position *)
  mutationObservers : list Observer;
  (** the document, and the class lists of the answer wrappers by node *)
  document : Elem;
  classOf : gmap nat (list string);
  (** the children of [#question-media], when that element exists *)
  container : option (list MediaNode);
  effects : list Effect;
  (** ghost: the timers that have fired, oldest first *)
  fired : list Timer }.

Definition with_state (f : State → State) (w : World) : World :=
  mkWorld (f (state w)) (host w) (clock w) (timers w) (nextTimer w)
    (mutationObservers w) (document w) (classOf w) (container w) (effects w)
    (fired w).
Definition with_clock (t : Z) (w : World) : World :=
  mkWorld (state w) (host w) t (timers w) (nextTimer w)
    (mutationObservers w) (document w) (classOf w) (container w) (effects w)
    (fired w).
Definition with_timers (ts : list Timer) (n : nat) (w : World) : World :=
  mkWorld (state w) (host w) (clock w) ts n
    (mutationObservers w) (document w) (classOf w) (container w) (effects w)
    (fired w).
Definition with_mutationObservers (os : list Observer) (w : World) : World :=
  mkWorld (state w) (host w) (clock w) (timers w) (nextTimer w)
    os (document w) (classOf w) (container w) (effects w) (fired w).
Definition with_page (root : Elem) (cls : gmap nat (list string))
    (c : option (list MediaNode)) (w : World) : World :=
  mkWorld (state w) (host w) (clock w) (timers w) (nextTimer w)
    (mutationObservers w) root cls c (effects w) (fired w).
Definition with_classOf (cls : gmap nat (list string)) (w : World) : World :=
  with_page (document w) cls (container w) w.
Definition with_container (c : option (list MediaNode)) (w : World) : World :=
  with_page (document w) (classOf w) c w.
Definition emit (e : Effect) (w : World) : World :=
  mkWorld (state w) (host w) (clock w) (timers w) (nextTimer w)
    (mutationObservers w) (document w) (classOf w) (container w)
    (effects w ++ [e]) (fired w).
Definition record_fired (t : Timer) (w : World) : World :=
  mkWorld (state w) (host w) (clock w) (timers w) (nextTimer w)
    (mutationObservers w) (document w) (classOf w) (container w) (effects w)
    (fired w ++ [t]).

Definition set_initialized (b : bool) (s : State) : State :=
  mkState b (currentQuestion s) (mediaCache s) (observers s)
    (debounceTimers s) (retryCount s).
Definition set_currentQuestion (q : Prim) (s : State) : State :=
  mkState (initialized s) q (mediaCache s) (observers s)
    (debounceTimers s) (retryCount s).
Definition set_mediaCache (m : gmap Prim CacheEntry) (s : State) : State :=
  mkState (initialized s) (currentQuestion s) m (observers s)
    (debounceTimers s) (retryCount s).
Definition set_observers (l : list nat) (s : State) : State :=
  mkState (initialized s) (currentQuestion s) (mediaCache s) l
    (debounceTimers s) (retryCount s).
Definition set_debounceTimers (m : gmap string nat) (s : State) : State :=
  mkState (initialized s) (currentQuestion s) (mediaCache s) (observers s)
    m (retryCount s).

(** How a call ends: normally, or by an exception that leaves the world as
    it was when it was thrown. *)
Inductive Outcome :=
  | Normal (w : World)
  | Throws (w : World).

Definition world_of (o : Outcome) : World :=
  match o with Normal w | Throws w => w end.

(** ** Timers and the debouncer *)

Definition clearTimeout (id : nat) (w : World) : World :=
  with_timers (filter (λ t, t_id t ≠ id) (timers w)) (nextTimer w) w.

(** [setTimeout] takes its delay as a signed 32-bit integer: a number
    outside that range wraps around. *)
Definition toInt32 (n : Z) : Z :=
  (n + 2147483648) mod 4294967296 - 2147483648.

(** A negative delay counts as zero. *)
Definition setTimeout (key : string) (func : Func) (delay : Z) (w : World)
    : nat * World :=
  let id := nextTimer w in
  (id, with_timers
         (timers w
          ++ [mkTimer id (clock w + Z.max 0 (toInt32 delay)) key func])
         (S id) w).

Definition debounce (key : string) (func : Func) (delay : Z) (w : World)
    : World :=
  let w1 :=
    match debounceTimers (state w) !! key with
    | Some id => clearTimeout id w
    | None => w
    end in
  let '(timer, w2) := setTimeout key func delay w1 in
  with_state (λ s, set_debounceTimers (<[key := timer]> (debounceTimers s)) s) w2.

(** ** TTL cache *)

Definition cacheMedia (questionId : Prim) (mediaData : JsVal) (w : World)
    : World :=
  with_state
    (λ s, set_mediaCache
            (<[questionId := mkEntry mediaData (clock w)]> (mediaCache s)) s)
    w.

Definition getCachedMedia (questionId : Prim) (w : World) : JsVal * World :=
  let evicted :=
    with_state (λ s, set_mediaCache (delete questionId (mediaCache s)) s) w in
  match mediaCache (state w) !! questionId with
  | Some cached =>
      if bool_decide (clock w - timestamp cached < cacheTimeout)
      then (data cached, w)
      else (null, evicted)
  | None => (null, evicted)
  end.

(** ** Renderer *)

Definition fallbackMarkup : list MediaNode :=
  [Div "no-media" "No media available"].

Definition displayMedia (mediaData : JsVal) (w : World) : Outcome :=
  match container w with
  | None => Normal w
  | Some _ =>
      match get_prop mediaData "type" with
      | None => Throws w
      | Some type =>
          let prop name := default undefined (get_prop mediaData name) in
          let fragment :=
            if is_str type "image" then
              [Img (prop "url")
                   (if truthy (prop "alt") then prop "alt"
                    else VPrim (PStr "Question media"))
                   "lazy"]
            else if is_str type "video" then
              [Video (prop "url") true "metadata"]
            else [] in
          Normal (with_container (Some fragment) w)
      end
  end.

Definition displayFallbackMedia (w : World) : World :=
  match container w with
  | Some _ => with_container (Some fallbackMarkup) w
  | None => w
  end.

(** ** Fetcher *)

Definition loadQuestionMedia (questionId : Prim) (force : bool) (w : World)
    : Outcome :=
  if negb (truthy_prim questionId) then Normal w
  else
    let request w :=
      Normal (emit (Fetch (ajaxUrl (host w)) "get_question_acf_media"
                          questionId (nonce (host w))) w) in
    if negb force then
      let '(cached, w1) := getCachedMedia questionId w in
      if truthy cached then displayMedia cached w1 else request w1
    else request w.

(** What the network hands back to the promise chain. *)
Inductive Response :=
  | NetworkError
  | ParseError
  | Body (data : JsVal).

(** The second [.then] callback. *)
Definition onData (questionId : Prim) (data : JsVal) (w : World) : Outcome :=
  match get_prop data "success" with
  | None => Throws w
  | Some success =>
      if truthy success then
        match get_prop data "data" with
        | None => Throws w
        | Some inner =>
            match get_prop inner "media" with
            | None => Throws w
            | Some media =>
                if truthy media
                then displayMedia media (cacheMedia questionId media w)
                else Normal (displayFallbackMedia w)
            end
        end
      else Normal (displayFallbackMedia w)
  end.

(** The whole chain [.then(json).then(onData).catch(fallback)]; the outcome
    is what the chain's promise settles with. *)
Definition onResponse (questionId : Prim) (r : Response) (w : World)
    : Outcome :=
  match r with
  | NetworkError | ParseError => Normal (displayFallbackMedia w)
  | Body data =>
      match onData questionId data w with
      | Normal w' => Normal w'
      | Throws w' => Normal (displayFallbackMedia w')
      end
  end.

(** ** Navigation handler *)

(** The delegated click handler installed by [setupQuestionNavigation]; it
    exists once [initialize] has run to completion. *)
Definition onNavigationClick (w : World) : World :=
  if initialized (state w)
  then debounce "navigation" FNavigation debounceDelay w
  else w.

(** The closure debounced under ["navigation"]. *)
Definition navigationAction (w : World) : Outcome :=
  let questionId := getCurrentQuestionId (document w) in
  if truthy_prim questionId
     && negb (bool_decide (questionId = currentQuestion (state w)))
  then loadQuestionMedia questionId false
         (with_state (set_currentQuestion questionId) w)
  else Normal w.

(** ** Answer watcher *)

Definition hasClass (target : nat) (c : string) (w : World) : bool :=
  existsb (String.eqb c) (default [] (classOf w !! target)).

Definition addClass (target : nat) (c : string) (w : World) : World :=
  if hasClass target c w then w
  else with_classOf
         (<[target := default [] (classOf w !! target) ++ [c]]> (classOf w)) w.

Definition disconnect (observer : nat) (w : World) : World :=
  with_mutationObservers
    (alter (λ o, mkObserver (o_question o) (o_target o) false) observer
       (mutationObservers w)) w.

(** The hint button sits inside the question's list item, so the click that
    is triggered on it also reaches the navigation handler. *)
Definition showHintRequirement (question : option QuestionEl) (w : World)
    : World :=
  match question with
  | Some q =>
      if q_tip q then onNavigationClick (emit (HintRequired q) w) else w
  | None => w
  end.

Definition handleIncorrectAnswer (question : option QuestionEl) (wrapper : nat)
    (w : World) : World :=
  showHintRequirement question (emit (NavDisabled true) w).

Definition handleCorrectAnswer (question : option QuestionEl) (wrapper : nat)
    (w : World) : World :=
  emit (NavDisabled false) (addClass wrapper "lilac-correct-answer" w).

(** The body of [mutations.forEach] in the observer's callback. *)
Definition onMutation (observer : nat) (question : option QuestionEl)
    (w : World) (mutation : MutationRecord) : World :=
  match m_type mutation, m_attributeName mutation with
  | attributes, Some name =>
      if String.eqb name "class" then
        let target := m_target mutation in
        if hasClass target "wpProQuiz_answerIncorrect" w then
          disconnect observer (handleIncorrectAnswer question target w)
        else if hasClass target "wpProQuiz_answerCorrect" w then
          disconnect observer (handleCorrectAnswer question target w)
        else w
      else w
  | _, _ => w
  end.

Definition observerCallback (observer : nat) (question : option QuestionEl)
    (mutations : list MutationRecord) (w : World) : World :=
  fold_left (onMutation observer question) mutations w.

(** The browser hands a batch of records to a connected observer. *)
Definition deliver (observer : nat) (mutations : list MutationRecord)
    (w : World) : World :=
  match mutationObservers w !! observer with
  | Some o =>
      if o_connected o
      then observerCallback observer (o_question o) mutations w
      else w
  | None => w
  end.

(** [observer.observe($wrapper[0], ...)] raises a TypeError when the input
    has no enclosing wrapper; nothing has been registered by then. *)
Definition checkAnswerAndEnforceHint (question : option QuestionEl)
    (input : InputEl) (w : World) : Outcome :=
  match i_wrapper input with
  | None => Throws w
  | Some wrapper =>
      let observer := length (mutationObservers w) in
      Normal
        (with_state (λ s, set_observers (observers s ++ [observer]) s)
           (with_mutationObservers
              (mutationObservers w ++ [mkObserver question wrapper true]) w))
  end.

(** [$question.index()] is -1 on an empty set. *)
Definition index_of (question : option QuestionEl) : Z :=
  match question with
  | Some q => Z.of_nat (q_index q)
  | None => -1
  end.

(** The delegated click handler installed by [setupHintEnforcement]. *)
Definition onInputClick (input : InputEl) (w : World) : World :=
  if initialized (state w) && enforceHint (host w) then
    let question := i_question input in
    debounce ("answer-check-" +:+ pretty (index_of question))
      (FAnswerCheck question input) 50 w
  else w.

(** ** Running timers *)

Definition runFunc (func : Func) (w : World) : Outcome :=
  match func with
  | FNavigation => navigationAction w
  | FAnswerCheck question input => checkAnswerAndEnforceHint question input w
  end.

(** The arrow function [debounce] hands to [setTimeout]: when [func] throws,
    the [delete] after it is not reached. *)
Definition timerCallback (t : Timer) (w : World) : World :=
  match runFunc (t_func t) (record_fired t w) with
  | Normal w' =>
      with_state
        (λ s, set_debounceTimers (delete (t_key t) (debounceTimers s)) s) w'
  | Throws w' => w'
  end.

(** The pending timer that is due first at or before [T]; among timers due
    at the same instant, the one created first. *)
Fixpoint nextDue (T : Z) (ts : list Timer) : option Timer :=
  match ts with
  | [] => None
  | t :: rest =>
      match nextDue T rest with
      | Some u =>
          if bool_decide (t_due t <= T) && bool_decide (t_due t <= t_due u)
          then Some t else Some u
      | None => if bool_decide (t_due t <= T) then Some t else None
      end
  end.

Definition fireTimer (t : Timer) (w : World) : World :=
  timerCallback t
    (with_clock (Z.max (clock w) (t_due t)) (clearTimeout (t_id t) w)).

Fixpoint runTimers (fuel : nat) (T : Z) (w : World) : World :=
  match fuel with
  | O => w
  | S fuel' =>
      match nextDue T (timers w) with
      | Some t => runTimers fuel' T (fireTimer t w)
      | None => w
      end
  end.

(** Time passes until [T]: every timer due by then fires, in order.  No
    closure of the script starts a timer from inside a timer, so the number
    of pending timers bounds the number of firings. *)
Definition advance (T : Z) (w : World) : World :=
  let w' := runTimers (length (timers w)) T w in
  with_clock (Z.max (clock w') T) w'.

(** ** Lifecycle *)

Definition initialize (w : World) : Outcome :=
  if initialized (state w) then Normal w
  else if bool_decide (query (document w) [[Class "wpProQuiz_content"]] = [])
  then Normal w
  else
    let w1 := with_state (set_initialized true) w in
    let currentQuestionId := getCurrentQuestionId (document w1) in
    if truthy_prim currentQuestionId
    then loadQuestionMedia currentQuestionId false w1
    else Normal w1.

Definition cleanup (w : World) : World :=
  let w1 :=
    foldr clearTimeout w (map_to_list (debounceTimers (state w))).*2 in
  let w2 := with_state (set_debounceTimers ∅) w1 in
  let w3 := foldr disconnect w2 (observers (state w2)) in
  let w4 := with_state (set_observers []) w3 in
  with_state (set_mediaCache ∅) w4.

(** ** Everything that can happen to the page *)

Inductive Event :=
  | Frame
  | ClickNavigation
  | ClickInput (input : InputEl)
  | Tick (T : Z)
  | Mutations (observer : nat) (batch : list MutationRecord)
  | Settled (questionId : Prim) (r : Response)
  | PageChanged (root : Elem) (cls : gmap nat (list string))
      (c : option (list MediaNode))
  | BeforeUnload.

(** One turn of the event loop.  A click on an answer input reaches the hint
    handler first and, when the input sits in a list item, the navigation
    handler next.  An exception that escapes a handler ends that handler
    only. *)
Definition exec (e : Event) (w : World) : World :=
  match e with
  | Frame => world_of (initialize w)
  | ClickNavigation => onNavigationClick w
  | ClickInput input =>
      let w1 := onInputClick input w in
      if bool_decide (is_Some (i_question input)) then onNavigationClick w1
      else w1
  | Tick T => advance T w
  | Mutations observer batch => deliver observer batch w
  | Settled questionId r => world_of (onResponse questionId r w)
  | PageChanged root cls c => with_page root cls c w
  | BeforeUnload => cleanup w
  end.

Definition initialState : State :=
  mkState false PNull ∅ [] ∅ 0%nat.

Definition initialWorld (h : HostGlobals) (now : Z) (root : Elem)
    (cls : gmap nat (list string)) (c : option (list MediaNode)) : World :=
  mkWorld initialState h now [] 0%nat [] root cls c [] [].

(** An answer to a media request only arrives for a request that was sent. *)
Definition enabled (e : Event) (w : World) : Prop :=
  match e with
  | Settled questionId _ =>
      ∃ url action token, Fetch url action questionId token ∈ effects w
  | _ => True
  end.

Definition run (es : list Event) (w : World) : World :=
  fold_left (λ w e, exec e w) es w.

Inductive reachable : World → Prop :=
  | reach_init h now root cls c :
      reachable (initialWorld h now root cls c)
  | reach_step e w :
      reachable w → enabled e w → reachable (exec e w).

(** ** Notions used in the statements *)

(** *** Locator *)

(** The element the selector loop settles on, if any. *)
Fixpoint firstMatch (root : Elem) (sels : list Selector) : option Located :=
  match sels with
  | [] => None
  | selector :: rest =>
      match head (query root selector) with
      | Some question => Some question
      | None => firstMatch root rest
      end
  end.

Definition listItems (root : Elem) : list Located :=
  query root [[Class "wpProQuiz_listItem"]].

(** The locator as the specification words it, with "the first list item
    overall" as its third strategy. *)
Definition claimed_selectors : list Selector :=
  [sel_reviewTarget; sel_visibleItem; [[Class "wpProQuiz_listItem"]]].
Definition claimed_currentQuestionId (root : Elem) : Prim :=
  probe root claimed_selectors.

(** The same element with its [data-question-id] attribute removed. *)
Definition without_qid (e : Elem) : Elem :=
  El (classes e) (visible e) None (children e).

(** A page whose only list item is hidden and sits outside any question
    list. *)
Definition hiddenItemPage : Elem :=
  El ["html"] true None
    [El ["wpProQuiz_content"] true None
       [El ["wpProQuiz_listItem"] false None []]].

(** A quiz with three plain list items of which only the last is visible. *)
Definition thirdItemPage : Elem :=
  El ["html"] true None
    [El ["wpProQuiz_content"] true None
       [El ["wpProQuiz_list"] true None
          [El ["wpProQuiz_listItem"] false None [];
           El ["wpProQuiz_listItem"] false None [];
           El ["wpProQuiz_listItem"] true None []]]].

(** *** Fetcher *)

(** The response's success flag and media payload, read off the parsed body
    without going through the script's property reads. *)
Definition successFlag (body : JsVal) : bool :=
  match body with
  | VObj fields => truthy (assoc "success" fields)
  | _ => false
  end.

Definition payloadOf (body : JsVal) : JsVal :=
  match body with
  | VObj fields =>
      match assoc "data" fields with
      | VObj inner => assoc "media" inner
      | _ => undefined
      end
  | _ => undefined
  end.

Definition wellFormed (r : Response) : option JsVal :=
  match r with
  | Body body =>
      if successFlag body && truthy (payloadOf body)
      then Some (payloadOf body) else None
  | NetworkError | ParseError => None
  end.

(** *** Debouncer *)

Definition pending_under (key : string) (w : World) : list Timer :=
  filter (λ t, t_key t = key) (timers w).

Definition fired_under (key : string) (w : World) : list Timer :=
  filter (λ t, t_key t = key) (fired w).

(** Every pending timer is the one registered under its name, and timer
    handles are not reused. *)
Definition timers_registered (w : World) : Prop :=
  ∀ t, t ∈ timers w → debounceTimers (state w) !! t_key t = Some (t_id t).
Definition timers_fresh (w : World) : Prop :=
  ∀ t, t ∈ timers w → (t_id t < nextTimer w)%nat.
Definition timers_nodup (w : World) : Prop :=
  NoDup (t_id <$> timers w).
Definition timers_ok (w : World) : Prop :=
  timers_registered w ∧ timers_fresh w ∧ timers_nodup w.

(** The closures that return normally: the navigation closure always does,
    the answer check does when its input has an enclosing wrapper. *)
Definition completes (func : Func) : Prop :=
  match func with
  | FNavigation => True
  | FAnswerCheck _ input => is_Some (i_wrapper input)
  end.

(** A call to [debounce]: when it happens, with which closure and delay. *)
Definition Call : Type := Z * Func * Z.
Definition call_time (c : Call) : Z := c.1.1.
Definition call_func (c : Call) : Func := c.1.2.
Definition call_delay (c : Call) : Z := c.2.

(** Each call comes no earlier than the previous one and less than the
    previous one's delay after it. *)
Fixpoint within_delay (prev delay : Z) (calls : list Call) : Prop :=
  match calls with
  | [] => True
  | (t, _, d) :: rest => prev ≤ t ∧ t - prev < delay ∧ within_delay t d rest
  end.

(** A burst: a first call now, then the remaining calls at their times. *)
Definition burst (key : string) (func : Func) (delay : Z) (rest : list Call)
    (w : World) : World :=
  fold_left (λ w '(t, f, d), debounce key f d (advance t w)) rest
    (debounce key func delay w).

Definition lastCall (first : Call) (rest : list Call) : Call :=
  default first (last rest).

(** The delays [setTimeout] takes at face value. *)
Definition int32 (n : Z) : Prop := -2147483648 ≤ n < 2147483648.

(** The burst, once [T] has come. *)
Definition afterBurst (key : string) (func : Func) (delay : Z)
    (rest : list Call) (T : Z) (w : World) : World :=
  advance T (burst key func delay rest w).

(** The world in which the callback of a firing timer starts: the timer has
    left the table, the clock has reached its due time. *)
Definition atFiring (t : Timer) (w : World) : World :=
  record_fired t
    (with_clock (Z.max (clock w) (t_due t)) (clearTimeout (t_id t) w)).

(** [state.debounceTimers.delete(key)] *)
Definition unregister (key : string) (w : World) : World :=
  with_state (λ s, set_debounceTimers (delete key (debounceTimers s)) s) w.

(** The listed timers fire one after another. *)
Definition fireAll (ts : list Timer) (w : World) : World :=
  fold_left (λ w t, fireTimer t w) ts w.

(** *** Invariants of the reachable worlds *)

Definition observers_ok (w : World) : Prop :=
  ∀ id o, mutationObservers w !! id = Some o → o_connected o = true →
          id ∈ observers (state w).
Definition cache_ok (w : World) : Prop :=
  ∀ k e, mediaCache (state w) !! k = Some e →
         truthy_prim k = true ∧ truthy (data e) = true.
Definition requests_ok (w : World) : Prop :=
  ∀ url action q token, Fetch url action q token ∈ effects w →
                        truthy_prim q = true.
Definition Inv (w : World) : Prop :=
  timers_ok w ∧ observers_ok w ∧ cache_ok w ∧ requests_ok w.

(** *** Watcher *)

Definition classMutation (target : nat) : MutationRecord :=
  mkMutation attributes (Some "class") target.

(** *** Frames *)

(** [w'] has the timers, the registry, the clock and the firing history of
    [w]. *)
Definition same_timing (w w' : World) : Prop :=
  timers w' = timers w ∧ nextTimer w' = nextTimer w
  ∧ debounceTimers (state w') = debounceTimers (state w)
  ∧ clock w' = clock w ∧ fired w' = fired w.

(** A step that moves no timer and no observer, adds nothing to the cache
    and sends only well-formed requests. *)
Definition quiet (w w' : World) : Prop :=
  same_timing w w'
  ∧ mutationObservers w' = mutationObservers w
  ∧ observers (state w') = observers (state w)
  ∧ mediaCache (state w') ⊆ mediaCache (state w)
  ∧ (requests_ok w → requests_ok w').

(** The part of [Inv] that is not about timers. *)
Definition rest_ok (w : World) : Prop :=
  observers_ok w ∧ cache_ok w ∧ requests_ok w.

(** Observers are only ever added or disconnected. *)
Definition watchers_later (w w' : World) : Prop :=
  ∀ id o, mutationObservers w !! id = Some o →
    ∃ o', mutationObservers w' !! id = Some o'
          ∧ (o_connected o = false → o_connected o' = false).

(** Timers that are pending or have fired since [w] either were pending in
    [w] or carry a handle issued after [w]. *)
Definition timers_later (w w' : World) : Prop :=
  (nextTimer w ≤ nextTimer w')%nat
  ∧ (∀ t, t ∈ timers w' → t ∈ timers w ∨ (nextTimer w ≤ t_id t)%nat)
  ∧ ∃ new, fired w' = fired w ++ new
           ∧ ∀ u, u ∈ new → u ∈ timers w ∨ (nextTimer w ≤ t_id u)%nat.

Definition later (w w' : World) : Prop :=
  watchers_later w w' ∧ timers_later w w'.

(** *** Sample pages and worlds *)

Definition zeroIdItem : Elem :=
  El ["wpProQuiz_listItem"] true (Some (PNum 0)) [].

Definition demoHost : HostGlobals :=
  mkHost "/wp-admin/admin-ajax.php" "n0nce" true.

Definition demoQuestion : QuestionEl := mkQuestion 2 true.
Definition demoInput : InputEl := mkInput (Some demoQuestion) (Some 7%nat).

Definition demoMedia : JsVal :=
  VObj [("type", VPrim (PStr "image")); ("url", VPrim (PStr "q3.png"))].
Definition demoBody : JsVal :=
  VObj [("success", VPrim (PBool true)); ("data", VObj [("media", demoMedia)])].

(** The page is ready, the first media request has been answered, an answer
    input was clicked 60 ms ago: its watcher is armed and the navigation
    timer started by the same click is still pending. *)
Definition busyWorld : World :=
  exec (Tick 60)
    (exec (ClickInput demoInput)
       (exec (Settled (PNum 3) (Body demoBody))
          (exec Frame (initialWorld demoHost 0 thirdItemPage ∅ (Some []))))).

(** The quiz widget has marked the watched wrapper as answered wrongly. *)
Definition markedWorld : World :=
  exec (PageChanged thirdItemPage
          {[7%nat := ["wpProQuiz_questionListItem"; "wpProQuiz_answerIncorrect"]]}
          (container busyWorld))
    busyWorld.

(** The pending navigation timer has fired. *)
Definition settledWorld : World := exec (Tick 200) busyWorld.

(** *** Notions used by the further properties *)

(** The events the user and the frame clock produce. *)
Definition userEvent (e : Event) : Prop :=
  match e with
  | Frame | ClickNavigation | ClickInput _ => True
  | _ => False
  end.

Definition quizRootPresent (w : World) : Prop :=
  query (document w) [[Class "wpProQuiz_content"]] ≠ [].

Definition is_fetch (e : Effect) : Prop :=
  match e with
  | Fetch _ _ _ _ => True
  | _ => False
  end.

(** [w'] differs from [w] at most in the cache, the recorded question, the
    initialised flag and the container, and by requests it has sent. *)
Definition page_step (w w' : World) : Prop :=
  ∃ ini cur cache box sent,
    w' = mkWorld
           (mkState ini cur cache (observers (state w))
              (debounceTimers (state w)) (retryCount (state w)))
           (host w) (clock w) (timers w) (nextTimer w) (mutationObservers w)
           (document w) (classOf w) box (effects w ++ sent) (fired w)
    ∧ Forall is_fetch sent.

(** Without hint enforcement: no observer, only navigation timers, only
    requests among the effects. *)
Definition unwatched (w : World) : Prop :=
  enforceHint (host w) = false
  ∧ mutationObservers w = [] ∧ observers (state w) = []
  ∧ Forall (λ t, t_func t = FNavigation) (timers w)
  ∧ Forall is_fetch (effects w).

(** No two names are registered with the same timer handle, and every
    registered handle has been issued. *)
Definition registry_ok (w : World) : Prop :=
  (∀ key id, debounceTimers (state w) !! key = Some id →
             (id < nextTimer w)%nat)
  ∧ (∀ key key' id, debounceTimers (state w) !! key = Some id →
                    debounceTimers (state w) !! key' = Some id → key = key').

(** The name under which the answer check of a question is debounced. *)
Definition answerCheckName (question : option QuestionEl) : string :=
  "answer-check-" +:+ pretty (index_of question).

(** An answer input that sits in a list item but in no answer wrapper, and
    the world right after it was clicked on a ready page. *)
Definition strayInput : InputEl := mkInput (Some demoQuestion) None.
Definition strayWorld : World :=
  exec (ClickInput strayInput)
    (exec Frame (initialWorld demoHost 0 thirdItemPage ∅ (Some []))).

(** * Proofs *)

Ltac unfold_script :=
  unfold world_of, initialize, onResponse, onData, navigationAction,
    loadQuestionMedia, getCachedMedia, cacheMedia, displayMedia,
    displayFallbackMedia, checkAnswerAndEnforceHint, handleCorrectAnswer,
    addClass, disconnect, emit, with_container, with_classOf, with_page,
    with_mutationObservers, with_state, with_clock in *.

Ltac frame :=
  intros; unfold_script;
  repeat (case_match; simpl in *; simplify_eq); simpl; try done.

(** * Cache *)

(** Claim C3.  A value stored under a key and read back before the
    time-to-live has run out, in particular at once, is returned as it was
    stored, and the read leaves the cache alone.  More generally, an entry
    stored at [timestamp e] is returned as long as
    [clock w - timestamp e < cacheTimeout]; from then on a read removes the
    entry from the cache and returns null. *)
Theorem cache_put_get_ttl (w : World) (k : Prim) :
  (∀ v now, now - clock w < cacheTimeout →
     getCachedMedia k (with_clock now (cacheMedia k v w))
     = (v, with_clock now (cacheMedia k v w)))
  ∧ (∀ e, mediaCache (state w) !! k = Some e →
       clock w - timestamp e < cacheTimeout →
       getCachedMedia k w = (data e, w))
  ∧ (∀ e, mediaCache (state w) !! k = Some e →
       ¬ clock w - timestamp e < cacheTimeout →
       getCachedMedia k w
       = (null, with_state
                  (λ s, set_mediaCache (delete k (mediaCache s)) s) w)
       ∧ mediaCache (state (getCachedMedia k w).2) !! k = None).
Proof.
  split; [|split].
  - intros v now Hfresh. unfold getCachedMedia. cbn.
    rewrite lookup_insert_eq. cbn.
    by rewrite bool_decide_eq_true_2.
  - intros e He Hfresh. unfold getCachedMedia.
    by rewrite He, bool_decide_eq_true_2.
  - intros e He Hstale. unfold getCachedMedia.
    rewrite He, bool_decide_eq_false_2 by done.
    split; [done|]. cbn. apply lookup_delete_eq.
Qed.

Lemma cache_put_get_ttl_witness :
  let w := initialWorld demoHost 1000 hiddenItemPage ∅ None in
  let v := VObj [("type", VPrim (PStr "image"))] in
  getCachedMedia (PNum 7) (with_clock 1500 (cacheMedia (PNum 7) v w))
  = (v, with_clock 1500 (cacheMedia (PNum 7) v w))
  ∧ (getCachedMedia (PNum 7) (with_clock 31000 (cacheMedia (PNum 7) v w))).1
    = null.
Proof.
  intros w v. split.
  - apply (proj1 (cache_put_get_ttl w (PNum 7))). vm_compute. reflexivity.
  - pose proof (proj2 (proj2 (cache_put_get_ttl
        (with_clock 31000 (cacheMedia (PNum 7) v w)) (PNum 7)))
        (mkEntry v 1000)) as H.
    destruct H as [H _]; [reflexivity | vm_compute; discriminate |].
    rewrite H. reflexivity.
Defined.

(** * Renderer *)

Lemma displayMedia_image (w : World) (prior : list MediaNode)
    (fields : list (string * JsVal)) :
  container w = Some prior →
  assoc "type" fields = VPrim (PStr "image") →
  ∃ alt, displayMedia (VObj fields) w
         = Normal (with_container
                     (Some [Img (assoc "url" fields) alt "lazy"]) w).
Proof.
  intros Hc Ht. unfold displayMedia. rewrite Hc. cbn. rewrite Ht. cbn.
  eauto.
Qed.

Lemma displayMedia_video (w : World) (prior : list MediaNode)
    (fields : list (string * JsVal)) :
  container w = Some prior →
  assoc "type" fields = VPrim (PStr "video") →
  displayMedia (VObj fields) w
  = Normal (with_container
              (Some [Video (assoc "url" fields) true "metadata"]) w).
Proof.
  intros Hc Ht. unfold displayMedia. rewrite Hc. cbn. rewrite Ht. by cbn.
Qed.

Lemma displayFallbackMedia_markup (w : World) (prior : list MediaNode) :
  container w = Some prior →
  container (displayFallbackMedia w) = Some fallbackMarkup.
Proof. intros Hc. unfold displayFallbackMedia. by rewrite Hc. Qed.

(** Claim C1, which the code breaks.  With the media container in place,
    rendering a payload whose kind is neither "image" nor "video" discards
    what the container held and leaves it empty: it holds no media element
    and no fallback markup either. *)
Theorem displayMedia_unknown_kind_empties (w : World)
    (prior : list MediaNode) (kind url : string) :
  container w = Some prior → kind ≠ "image" → kind ≠ "video" →
  displayMedia (VObj [("type", VPrim (PStr kind)); ("url", VPrim (PStr url))])
    w
  = Normal (with_container (Some []) w).
Proof.
  intros Hc Hi Hv. unfold displayMedia. rewrite Hc. cbn.
  apply String.eqb_neq in Hi, Hv. by rewrite Hi, Hv.
Qed.

Lemma displayMedia_unknown_kind_witness :
  let w := initialWorld demoHost 0 hiddenItemPage ∅ (Some fallbackMarkup) in
  container (world_of (displayMedia
     (VObj [("type", VPrim (PStr "audio")); ("url", VPrim (PStr "a.mp3"))]) w))
  = Some [].
Proof.
  intros w.
  rewrite (displayMedia_unknown_kind_empties w fallbackMarkup "audio" "a.mp3");
    [reflexivity | reflexivity | discriminate | discriminate].
Defined.

(** * Fetcher *)

Lemma displayMedia_truthy (m : JsVal) (w : World) :
  truthy m = true → ∃ w', displayMedia m w = Normal w'.
Proof.
  intros Hm. unfold displayMedia. destruct (container w); [|eauto].
  destruct m as [[]| |]; try discriminate; cbn; eauto.
Qed.

Lemma onData_wellFormed (questionId : Prim) (body : JsVal) (w : World) :
  onData questionId body w =
  match wellFormed (Body body) with
  | Some media => displayMedia media (cacheMedia questionId media w)
  | None =>
      match body with
      | VPrim PUndefined | VPrim PNull => Throws w
      | VObj fields =>
          if truthy (assoc "success" fields) then
            match assoc "data" fields with
            | VPrim PUndefined | VPrim PNull => Throws w
            | _ => Normal (displayFallbackMedia w)
            end
          else Normal (displayFallbackMedia w)
      | _ => Normal (displayFallbackMedia w)
      end
  end.
Proof.
  unfold onData, wellFormed, successFlag, payloadOf.
  destruct body as [[]| |fields]; cbn; try done.
  destruct (truthy (assoc "success" fields)); cbn; [|done].
  destruct (assoc "data" fields) as [[]| |inner]; cbn; try done.
  by destruct (truthy (assoc "media" inner)).
Qed.

Lemma wellFormed_truthy (r : Response) (media : JsVal) :
  wellFormed r = Some media → truthy media = true.
Proof.
  destruct r as [| |body]; try done. unfold wellFormed.
  destruct (successFlag body); [|done].
  destruct (truthy (payloadOf body)) eqn:E; [|done].
  cbn. by intros [= <-].
Qed.

Lemma onResponse_spec (questionId : Prim) (r : Response) (w : World) :
  onResponse questionId r w =
  Normal match wellFormed r with
         | Some media =>
             world_of (displayMedia media (cacheMedia questionId media w))
         | None => displayFallbackMedia w
         end.
Proof.
  destruct (wellFormed r) as [media|] eqn:Hwf.
  - pose proof (wellFormed_truthy r media Hwf) as Hm.
    destruct r as [| |body]; try discriminate.
    destruct (displayMedia_truthy media (cacheMedia questionId media w) Hm)
      as [w' Hw'].
    unfold onResponse. by rewrite onData_wellFormed, Hwf, Hw'.
  - destruct r as [| |body]; try done.
    unfold onResponse. rewrite onData_wellFormed, Hwf.
    destruct body as [[]| |fields]; try done.
    destruct (truthy (assoc "success" fields)); [|done].
    by destruct (assoc "data" fields) as [[]| |].
Qed.

(** Claim C6.  Whatever comes back from the media request, the promise
    chain settles normally.  When the answer is well formed (success flag
    set, media payload present) the payload is rendered and stored in the
    cache under the question id with the current time; in every other case
    (transport failure, unparsable body, success flag unset, payload
    missing) the cache is left alone and the container, when it exists,
    shows the fallback markup. *)
Theorem onResponse_fallback_or_store (questionId : Prim) (r : Response)
    (w : World) :
  match wellFormed r with
  | Some media =>
      ∃ w', displayMedia media (cacheMedia questionId media w) = Normal w'
            ∧ onResponse questionId r w = Normal w'
            ∧ mediaCache (state w') !! questionId
              = Some (mkEntry media (clock w))
  | None =>
      onResponse questionId r w = Normal (displayFallbackMedia w)
      ∧ mediaCache (state (displayFallbackMedia w)) = mediaCache (state w)
      ∧ (∀ prior, container w = Some prior →
           container (displayFallbackMedia w) = Some fallbackMarkup)
  end.
Proof.
  destruct (wellFormed r) as [media|] eqn:Hwf.
  - destruct r as [| |body]; try discriminate.
    assert (truthy media = true) as Hm.
    { unfold wellFormed in Hwf.
      destruct (successFlag body); [|discriminate].
      destruct (truthy (payloadOf body)) eqn:E; [|discriminate].
      cbn in Hwf. by injection Hwf as <-. }
    destruct (displayMedia_truthy media (cacheMedia questionId media w) Hm)
      as [w' Hw'].
    exists w'. split; [done|]. split.
    + unfold onResponse. by rewrite onData_wellFormed, Hwf, Hw'.
    + revert Hw'. unfold displayMedia.
      destruct (container _); [|intros [= <-]; cbn; apply lookup_insert_eq].
      destruct (get_prop media "type"); [|done].
      intros [= <-]. cbn. apply lookup_insert_eq.
  - split; [|split].
    + destruct r as [| |body]; try done.
      unfold onResponse. rewrite onData_wellFormed, Hwf.
      destruct body as [[]| |fields]; try done.
      destruct (truthy (assoc "success" fields)); [|done].
      by destruct (assoc "data" fields) as [[]| |].
    + unfold displayFallbackMedia. by destruct (container w).
    + intros prior Hc. by apply displayFallbackMedia_markup with prior.
Qed.

Lemma onResponse_fallback_or_store_witness :
  let w := initialWorld demoHost 5 thirdItemPage ∅ (Some []) in
  onResponse (PNum 3) NetworkError w = Normal (displayFallbackMedia w)
  ∧ container (displayFallbackMedia w) = Some fallbackMarkup
  ∧ ∃ w', onResponse (PNum 3) (Body demoBody) w = Normal w'
          ∧ mediaCache (state w') !! PNum 3 = Some (mkEntry demoMedia 5).
Proof.
  intros w.
  pose proof (onResponse_fallback_or_store (PNum 3) NetworkError w) as Hfail.
  pose proof (onResponse_fallback_or_store (PNum 3) (Body demoBody) w) as Hok.
  cbn [wellFormed] in Hfail. destruct Hfail as (Hf & _ & Hc).
  split; [exact Hf|]. split; [apply (Hc []); reflexivity|].
  change (wellFormed (Body demoBody)) with (Some demoMedia) in Hok.
  destruct Hok as (w' & _ & Hr & Hm). exists w'. split; [exact Hr|exact Hm].
Defined.

(** * Locator *)

Lemma probe_firstMatch (root : Elem) (sels : list Selector) :
  probe root sels =
  match firstMatch root sels with
  | Some question => questionIdOf question
  | None => PNull
  end.
Proof.
  induction sels as [|selector rest IH]; [done|]. cbn.
  by destruct (head (query root selector)).
Qed.

Lemma filter_nil_weaken {A} (P Q : A → Prop) `{!∀ x, Decision (P x)}
    `{!∀ x, Decision (Q x)} (l : list A) :
  (∀ x, P x → Q x) → filter Q l = [] → filter P l = [].
Proof.
  intros HPQ HQ. induction l as [|x l IH]; [done|].
  rewrite filter_cons in HQ. destruct (decide (Q x)); [done|].
  rewrite filter_cons_False by naive_solver. auto.
Qed.

Lemma match_ancestors_nil (anc : list Elem) : match_ancestors anc [] = true.
Proof. by destruct anc. Qed.

Lemma selectors_pick_listItems (sel : Selector) (x : Located) :
  sel ∈ selectors → matches sel x = true →
  matches [[Class "wpProQuiz_listItem"]] x = true.
Proof.
  unfold selectors. rewrite !elem_of_cons, elem_of_nil.
  intros [->|[->|[->|[]]]]; unfold matches; cbn;
    rewrite ?match_ancestors_nil;
    by destruct (has_class "wpProQuiz_listItem" (l_el x)).
Qed.

Lemma query_no_listItems (root : Elem) (sel : Selector) :
  sel ∈ selectors → listItems root = [] → query root sel = [].
Proof.
  intros Hsel. unfold listItems, query. apply filter_nil_weaken.
  intros x. by apply selectors_pick_listItems.
Qed.

Lemma firstMatch_listItem (root : Elem) (q : Located) :
  firstMatch root selectors = Some q → q ∈ listItems root.
Proof.
  assert (∀ sels, sels ⊆ selectors → firstMatch root sels = Some q →
                  q ∈ listItems root) as H; [|by apply H].
  induction sels as [|sel rest IH]; [done|]. intros Hsub. cbn.
  destruct (head (query root sel)) as [q'|] eqn:Hhd.
  - intros [= ->]. apply head_Some_elem_of in Hhd.
    unfold query in Hhd. apply list_elem_of_filter in Hhd as [Hm Hin].
    unfold listItems, query. apply list_elem_of_filter. split; [|done].
    apply selectors_pick_listItems with sel; [|done].
    apply Hsub. left.
  - apply IH. intros s Hs. apply Hsub. by right.
Qed.

Lemma questionIdOf_truthy (q : Located) : truthy_prim (questionIdOf q) = true.
Proof.
  unfold questionIdOf, por.
  destruct (truthy_prim (data_question_id (Some (l_el q)))) eqn:E1; [done|].
  destruct (truthy_prim (data_question_id (head _))) eqn:E2; [done|].
  cbn. apply negb_true_iff, Z.eqb_neq. lia.
Qed.

(** Claim C7, amended.  The locator tries, in this order, the first list
    item marked as review target, the first visible list item, and the first
    list item nested inside a question list, and answers with the identifier
    of the first of these that exists; every element it settles on is a list
    item.  The identifier is the item's own truthy [data-question-id] value,
    else the truthy value of its first descendant carrying that attribute,
    else its sibling index plus one.  A document without list items yields
    null, and a plain visible list item at sibling index 2 yields 3.  Being a
    function of the document alone, the locator changes nothing. *)
Theorem getCurrentQuestionId_priority (root : Elem) :
  getCurrentQuestionId root =
    match head (query root sel_reviewTarget) with
    | Some q => questionIdOf q
    | None =>
        match head (query root sel_visibleItem) with
        | Some q => questionIdOf q
        | None =>
            match head (query root sel_listedItem) with
            | Some q => questionIdOf q
            | None => PNull
            end
        end
    end
  ∧ (∀ q, firstMatch root selectors = Some q → q ∈ listItems root)
  ∧ (∀ q v, qid (l_el q) = Some v → truthy_prim v = true →
       questionIdOf q = v)
  ∧ (∀ q d v, truthy_prim (data_question_id (Some (l_el q))) = false →
       head (find_question_id (l_el q)) = Some d → qid d = Some v →
       truthy_prim v = true → questionIdOf q = v)
  ∧ (∀ q, qid (l_el q) = None → find_question_id (l_el q) = [] →
       questionIdOf q = PNum (Z.of_nat (l_index q) + 1))
  ∧ (listItems root = [] → getCurrentQuestionId root = PNull)
  ∧ getCurrentQuestionId thirdItemPage = PNum 3.
Proof.
  split; [done|]. split; [apply firstMatch_listItem|].
  split; [|split; [|split; [|split]]].
  - intros q v Hq Hv. unfold questionIdOf, por. cbn.
    by rewrite Hq; cbn; rewrite Hv.
  - intros q d v Hown Hd Hq Hv. unfold questionIdOf, por.
    rewrite Hown, Hd. cbn. by rewrite Hq; cbn; rewrite Hv.
  - intros q Hq Hnone. unfold questionIdOf, por. cbn.
    by rewrite Hq, Hnone.
  - intros Hnone. unfold getCurrentQuestionId, selectors. cbn.
    rewrite !query_no_listItems; try done; unfold selectors;
      rewrite !elem_of_cons; auto.
  - reflexivity.
Qed.

Lemma getCurrentQuestionId_priority_witness :
  let item := El ["wpProQuiz_listItem"] true (Some (PNum 42)) [] in
  questionIdOf (mkLocated item 5%nat []) = PNum 42
  ∧ getCurrentQuestionId (El ["html"] true None []) = PNull.
Proof.
  intros item. split.
  - destruct (getCurrentQuestionId_priority item) as (_ & _ & Hown & _).
    apply Hown; reflexivity.
  - destruct (getCurrentQuestionId_priority (El ["html"] true None []))
      as (_ & _ & _ & _ & _ & Hnone & _).
    apply Hnone. reflexivity.
Defined.

(** Claim C7 as stated fails: the third strategy is not "the first list item
    overall".  On a page whose only list item is hidden and outside any
    question list, the locator answers null although that reading would
    answer 1. *)
Lemma getCurrentQuestionId_not_first_item_overall :
  listItems hiddenItemPage ≠ []
  ∧ getCurrentQuestionId hiddenItemPage = PNull
  ∧ claimed_currentQuestionId hiddenItemPage = PNum 1
  ∧ getCurrentQuestionId hiddenItemPage
    ≠ claimed_currentQuestionId hiddenItemPage.
Proof. repeat split; try reflexivity; vm_compute; discriminate. Qed.

Lemma find_question_id_without_qid (e : Elem) :
  find_question_id (without_qid e) = find_question_id e.
Proof. by destruct e. Qed.

(** Claim C9.  When the list item the locator settles on carries a falsy
    [data-question-id] value, the locator does not return that value: it
    answers with the descendant's value or else the sibling index plus one,
    exactly as it would had the attribute been absent. *)
Theorem falsy_question_id_ignored (root : Elem) (q : Located) (v : Prim) :
  firstMatch root selectors = Some q →
  qid (l_el q) = Some v → truthy_prim v = false →
  getCurrentQuestionId root
  = por (data_question_id (head (find_question_id (l_el q))))
        (PNum (Z.of_nat (l_index q) + 1))
  ∧ getCurrentQuestionId root ≠ v
  ∧ getCurrentQuestionId root
    = questionIdOf
        (mkLocated (without_qid (l_el q)) (l_index q) (l_ancestors q)).
Proof.
  intros Hq Hv Hfalsy.
  assert (getCurrentQuestionId root = questionIdOf q) as Hid.
  { unfold getCurrentQuestionId. by rewrite probe_firstMatch, Hq. }
  assert (questionIdOf q
          = por (data_question_id (head (find_question_id (l_el q))))
                (PNum (Z.of_nat (l_index q) + 1))) as Hskip.
  { unfold questionIdOf at 1, por at 1. cbn.
    by rewrite Hv; cbn; rewrite Hfalsy. }
  split; [congruence|]. split.
  - intros Heq. pose proof (questionIdOf_truthy q). congruence.
  - rewrite Hid, Hskip. unfold questionIdOf. simpl l_el. simpl l_index.
    by rewrite find_question_id_without_qid.
Qed.

Lemma falsy_question_id_ignored_witness :
  let root := El ["html"] true None [El [] true None []; zeroIdItem] in
  getCurrentQuestionId root = PNum 2.
Proof.
  intros root.
  destruct (falsy_question_id_ignored root
              (mkLocated zeroIdItem 1%nat [root]) (PNum 0)) as (H & _ & _);
    [reflexivity | reflexivity | reflexivity |].
  rewrite H. reflexivity.
Defined.

Lemma same_timing_refl w : same_timing w w.
Proof. by repeat split. Qed.

Lemma same_timing_trans w1 w2 w3 :
  same_timing w1 w2 → same_timing w2 w3 → same_timing w1 w3.
Proof.
  unfold same_timing. intros (? & ? & ? & ? & ?) (? & ? & ? & ? & ?).
  repeat split; congruence.
Qed.

Lemma loadQuestionMedia_timing q f w :
  same_timing w (world_of (loadQuestionMedia q f w)).
Proof. unfold same_timing. frame. Qed.

Lemma navigationAction_timing w : same_timing w (world_of (navigationAction w)).
Proof. unfold same_timing. frame. Qed.

Lemma checkAnswerAndEnforceHint_timing q i w :
  same_timing w (world_of (checkAnswerAndEnforceHint q i w)).
Proof. unfold same_timing. frame. Qed.

Lemma runFunc_timing f w : same_timing w (world_of (runFunc f w)).
Proof.
  destruct f; [apply navigationAction_timing|].
  apply checkAnswerAndEnforceHint_timing.
Qed.

Lemma onResponse_timing q r w : same_timing w (world_of (onResponse q r w)).
Proof. unfold same_timing. frame. Qed.

Lemma initialize_timing w : same_timing w (world_of (initialize w)).
Proof. unfold same_timing. frame. Qed.

(** * Timers *)

Lemma filter_all {A} (P : A → Prop) `{!∀ x, Decision (P x)} (l : list A) :
  (∀ x, x ∈ l → P x) → filter P l = l.
Proof.
  induction l as [|x l IH]; [done|]. intros HP.
  rewrite filter_cons_True by (apply HP; left).
  f_equal. apply IH. intros y Hy. apply HP. by right.
Qed.

Lemma filter_none {A} (P : A → Prop) `{!∀ x, Decision (P x)} (l : list A) :
  (∀ x, x ∈ l → ¬ P x) → filter P l = [].
Proof.
  induction l as [|x l IH]; [done|]. intros HP.
  rewrite filter_cons_False by (apply HP; left).
  apply IH. intros y Hy. apply HP. by right.
Qed.

Lemma timers_ok_same w w' : same_timing w w' → timers_ok w → timers_ok w'.
Proof.
  unfold timers_ok, timers_registered, timers_fresh, timers_nodup.
  intros (Ht & Hn & Hr & _ & _). by rewrite Ht, Hn, Hr.
Qed.

Lemma same_id_same_timer (l : list Timer) (t u : Timer) :
  NoDup (t_id <$> l) → t ∈ l → u ∈ l → t_id t = t_id u → t = u.
Proof.
  intros Hnd Ht Hu Hid. induction l as [|x l IH]; [by apply elem_of_nil in Ht|].
  rewrite fmap_cons in Hnd. apply NoDup_cons in Hnd as [Hx Hnd].
  apply elem_of_cons in Ht as [->|Ht]; apply elem_of_cons in Hu as [->|Hu];
    auto; exfalso; apply Hx.
  - rewrite Hid. by apply list_elem_of_fmap_2.
  - rewrite <- Hid. by apply list_elem_of_fmap_2.
Qed.

Lemma at_most_one_pending (w : World) (key : string) :
  timers_ok w → (length (pending_under key w) ≤ 1)%nat.
Proof.
  intros (Hreg & _ & Hnd). unfold pending_under.
  destruct (filter _ (timers w)) as [|t [|u rest]] eqn:E; simpl; try lia.
  exfalso.
  assert (t ∈ filter (λ t, t_key t = key) (timers w)) as Ht
    by (rewrite E; left).
  assert (u ∈ filter (λ t, t_key t = key) (timers w)) as Hu
    by (rewrite E; right; left).
  apply list_elem_of_filter in Ht as [Htk Ht], Hu as [Huk Hu].
  pose proof (Hreg t Ht) as Rt. pose proof (Hreg u Hu) as Ru.
  rewrite Htk in Rt. rewrite Huk in Ru.
  assert (t = u) as ->.
  { apply (same_id_same_timer (timers w)); auto. congruence. }
  assert (NoDup (filter (λ t, t_key t = key) (timers w))) as Hnd'.
  { apply NoDup_filter. by apply NoDup_fmap_1 with t_id. }
  rewrite E in Hnd'. apply NoDup_cons in Hnd' as [Hn _]. apply Hn. left.
Qed.

Lemma debounce_timers (key : string) (func : Func) (delay : Z) (w : World) :
  timers (debounce key func delay w)
  = filter (λ t, debounceTimers (state w) !! key ≠ Some (t_id t)) (timers w)
    ++ [mkTimer (nextTimer w) (clock w + Z.max 0 (toInt32 delay)) key func]
  ∧ nextTimer (debounce key func delay w) = S (nextTimer w)
  ∧ debounceTimers (state (debounce key func delay w))
    = <[key := nextTimer w]> (debounceTimers (state w))
  ∧ clock (debounce key func delay w) = clock w
  ∧ fired (debounce key func delay w) = fired w.
Proof.
  unfold debounce.
  destruct (debounceTimers (state w) !! key) as [id|] eqn:E; cbn.
  - repeat split. f_equal. apply list_filter_iff. intros t. naive_solver.
  - repeat split. f_equal. symmetry. by apply filter_all.
Qed.

Lemma debounce_ok (key : string) (func : Func) (delay : Z) (w : World) :
  timers_ok w → timers_ok (debounce key func delay w).
Proof.
  intros (Hreg & Hfresh & Hnd).
  destruct (debounce_timers key func delay w) as (Ht & Hn & Hr & _ & _).
  unfold timers_ok, timers_registered, timers_fresh, timers_nodup.
  rewrite Ht, Hn, Hr. split; [|split].
  - intros t [Hold| ->%list_elem_of_singleton]%elem_of_app.
    + apply list_elem_of_filter in Hold as [Hne Hin].
      destruct (decide (t_key t = key)) as [Heq|Hk].
      * exfalso. apply Hne. rewrite <- Heq. by apply Hreg.
      * rewrite lookup_insert_ne by done. by apply Hreg.
    + cbn. apply lookup_insert_eq.
  - intros t [Hold| ->%list_elem_of_singleton]%elem_of_app.
    + apply list_elem_of_filter in Hold as [_ Hin]. specialize (Hfresh t Hin). lia.
    + cbn. lia.
  - rewrite fmap_app. apply NoDup_app. split; [|split].
    + apply NoDup_fmap_2_strong.
      * intros t u [_ Hti]%list_elem_of_filter [_ Hui]%list_elem_of_filter.
        by apply same_id_same_timer with (timers w).
      * apply NoDup_filter. by apply NoDup_fmap_1 with t_id.
    + intros id (t & -> & [_ Hin]%list_elem_of_filter)%list_elem_of_fmap.
      cbn. intros Heq%list_elem_of_singleton.
      specialize (Hfresh t Hin). lia.
    + apply NoDup_singleton.
Qed.

Lemma debounce_pending (key : string) (func : Func) (delay : Z) (w : World) :
  timers_ok w →
  pending_under key (debounce key func delay w)
  = [mkTimer (nextTimer w) (clock w + Z.max 0 (toInt32 delay)) key func].
Proof.
  intros (Hreg & _ & _).
  destruct (debounce_timers key func delay w) as (Ht & _).
  unfold pending_under. rewrite Ht, filter_app.
  rewrite (filter_none _ (filter _ _)); [by rewrite filter_cons_True|].
  intros t [Hne Hin]%list_elem_of_filter Hk.
  apply Hne. rewrite <- Hk. by apply Hreg.
Qed.

Lemma filter_ext_elem {A} (P Q : A → Prop) `{!∀ x, Decision (P x)}
    `{!∀ x, Decision (Q x)} (l : list A) :
  (∀ x, x ∈ l → P x ↔ Q x) → filter P l = filter Q l.
Proof.
  induction l as [|x l IH]; [done|]. intros HPQ.
  rewrite !filter_cons.
  rewrite IH by (intros y Hy; apply HPQ; by right).
  assert (P x ↔ Q x) as Hx by (apply HPQ; left).
  destruct (decide (P x)), (decide (Q x)); try done; exfalso; tauto.
Qed.

Lemma NoDup_fmap_filter {A B} (f : A → B) (P : A → Prop)
    `{!∀ x, Decision (P x)} (l : list A) :
  NoDup (f <$> l) → NoDup (f <$> filter P l).
Proof.
  induction l as [|x l IH]; [done|]. rewrite fmap_cons, NoDup_cons.
  intros [Hx Hnd]. rewrite filter_cons. destruct (decide (P x)); [|auto].
  rewrite fmap_cons, NoDup_cons. split; [|auto].
  intros (y & Hy & [_ Hin]%list_elem_of_filter)%list_elem_of_fmap.
  apply Hx. rewrite Hy. by apply list_elem_of_fmap_2.
Qed.

Lemma fireTimer_shape (t : Timer) (w : World) :
  timers (fireTimer t w) = filter (λ u, t_id u ≠ t_id t) (timers w)
  ∧ nextTimer (fireTimer t w) = nextTimer w
  ∧ (debounceTimers (state (fireTimer t w))
       = delete (t_key t) (debounceTimers (state w))
     ∨ debounceTimers (state (fireTimer t w)) = debounceTimers (state w))
  ∧ clock (fireTimer t w) = Z.max (clock w) (t_due t)
  ∧ fired (fireTimer t w) = fired w ++ [t].
Proof.
  unfold fireTimer, timerCallback.
  match goal with |- context [runFunc ?f ?w0] =>
    destruct (runFunc_timing f w0) as (Ht & Hn & Hr & Hc & Hf);
    destruct (runFunc f w0) as [w'|w'] end;
    cbn in *; rewrite Ht, Hn, Hr, Hc, Hf; auto 10.
Qed.

Lemma fireTimer_ok (t : Timer) (w : World) :
  timers_ok w → t ∈ timers w → timers_ok (fireTimer t w).
Proof.
  intros (Hreg & Hfresh & Hnd) Hin.
  destruct (fireTimer_shape t w) as (Ht & Hn & Hr & _ & _).
  unfold timers_ok, timers_registered, timers_fresh, timers_nodup.
  rewrite Ht, Hn. split; [|split].
  - intros u [Hne Hu]%list_elem_of_filter.
    destruct Hr as [-> | ->]; [|by apply Hreg].
    rewrite lookup_delete_ne; [by apply Hreg|].
    intros Hk. apply Hne. pose proof (Hreg t Hin) as Rt.
    pose proof (Hreg u Hu) as Ru. rewrite Hk in Rt. congruence.
  - intros u [_ Hu]%list_elem_of_filter. by apply Hfresh.
  - by apply NoDup_fmap_filter.
Qed.

(** ** What firing and waiting do to the timers of one name *)

Section PerName.
  Context (key : string).

Lemma fire_other (t : Timer) (w : World) :
  timers_ok w → t ∈ timers w → t_key t ≠ key →
  pending_under key (fireTimer t w) = pending_under key w
  ∧ fired_under key (fireTimer t w) = fired_under key w.
Proof.
  intros (Hreg & Hfresh & Hnd) Hin Hk.
  destruct (fireTimer_shape t w) as (Ht & _ & _ & _ & Hf).
  unfold pending_under, fired_under. rewrite Ht, Hf. split.
  - rewrite list_filter_filter. apply filter_ext_elem.
    intros u Hu. split; [by intros [? _]|]. intros Hku. split; [done|].
    intros Hid. apply Hk. rewrite <- Hku. f_equal. symmetry.
    by apply same_id_same_timer with (timers w).
  - rewrite filter_app, filter_cons_False by done. apply app_nil_r.
Qed.

Lemma fire_same (t : Timer) (w : World) :
  timers_ok w → t ∈ timers w → t_key t = key →
  pending_under key (fireTimer t w) = []
  ∧ fired_under key (fireTimer t w) = fired_under key w ++ [t].
Proof.
  intros (Hreg & Hfresh & Hnd) Hin Hk.
  destruct (fireTimer_shape t w) as (Ht & _ & _ & _ & Hf).
  unfold pending_under, fired_under. rewrite Ht, Hf. split.
  - apply filter_none. intros u [Hne Hu]%list_elem_of_filter Hku.
    apply Hne. pose proof (Hreg t Hin) as Rt. pose proof (Hreg u Hu) as Ru.
    rewrite Hk in Rt. rewrite Hku in Ru. congruence.
  - by rewrite filter_app, filter_cons_True.
Qed.

Lemma nextDue_Some (T : Z) (ts : list Timer) (t : Timer) :
  nextDue T ts = Some t → t ∈ ts ∧ t_due t ≤ T.
Proof.
  revert t. induction ts as [|x ts IH]; [done|]. intros t. cbn.
  destruct (nextDue T ts) as [u|].
  - destruct (IH u eq_refl) as [Hu Hdue].
    case_bool_decide; cbn; [case_bool_decide; cbn|];
      intros [= <-]; split; (by left) || (by right) || done.
  - case_bool_decide; [|done]. intros [= <-]. split; [left|done].
Qed.

Lemma nextDue_None (T : Z) (ts : list Timer) (t : Timer) :
  nextDue T ts = None → t ∈ ts → T < t_due t.
Proof.
  induction ts as [|x ts IH]; [by intros _ ?%elem_of_nil|]. cbn.
  destruct (nextDue T ts) as [u|].
  - by repeat (case_bool_decide; cbn).
  - case_bool_decide; [done|]. intros _ [->|Hin]%elem_of_cons; [lia|auto].
Qed.

Lemma runTimers_not_due (T : Z) (fuel : nat) (w : World) :
  timers_ok w → (∀ t, t ∈ pending_under key w → T < t_due t) →
  timers_ok (runTimers fuel T w)
  ∧ pending_under key (runTimers fuel T w) = pending_under key w
  ∧ fired_under key (runTimers fuel T w) = fired_under key w.
Proof.
  revert w. induction fuel as [|fuel IH]; [done|]. intros w Hok Hlate. cbn.
  destruct (nextDue T (timers w)) as [t|] eqn:E; [|done].
  apply nextDue_Some in E as [Hin Hdue].
  assert (t_key t ≠ key) as Hk.
  { intros Hk. assert (T < t_due t); [|lia].
    apply Hlate. by apply list_elem_of_filter. }
  destruct (fire_other t w Hok Hin Hk) as [Hp Hf].
  destruct (IH (fireTimer t w)) as (? & ? & ?).
  - by apply fireTimer_ok.
  - by rewrite Hp.
  - split; [done|split; congruence].
Qed.

Lemma runTimers_due (T : Z) (tm : Timer) (fuel : nat)
    (w : World) :
  timers_ok w → (length (timers w) ≤ fuel)%nat →
  pending_under key w = [tm] → t_due tm ≤ T →
  timers_ok (runTimers fuel T w)
  ∧ pending_under key (runTimers fuel T w) = []
  ∧ fired_under key (runTimers fuel T w) = fired_under key w ++ [tm].
Proof.
  revert w. induction fuel as [|fuel IH]; intros w Hok Hlen Hp Hdue.
  - assert (tm ∈ pending_under key w) as [_ Hin]%list_elem_of_filter
      by (rewrite Hp; left).
    destruct (timers w); [by apply elem_of_nil in Hin|cbn in Hlen; lia].
  - assert (tm ∈ pending_under key w) as [Hkm Hinm]%list_elem_of_filter
      by (rewrite Hp; left).
    cbn. destruct (nextDue T (timers w)) as [t|] eqn:E.
    + apply nextDue_Some in E as [Hin Hdt].
      destruct (decide (t_key t = key)) as [Hk|Hk].
      * assert (t = tm) as ->.
        { assert (t ∈ pending_under key w) as Ht
            by by apply list_elem_of_filter.
          rewrite Hp in Ht. by apply list_elem_of_singleton in Ht. }
        destruct (fire_same tm w Hok Hin Hk) as [Hp' Hf'].
        destruct (runTimers_not_due T fuel (fireTimer tm w))
          as (? & ? & ?).
        -- by apply fireTimer_ok.
        -- rewrite Hp'. by intros ? ?%elem_of_nil.
        -- split; [done|split; congruence].
      * destruct (fire_other t w Hok Hin Hk) as [Hp' Hf'].
        destruct (IH (fireTimer t w)) as (? & ? & ?).
        -- by apply fireTimer_ok.
        -- destruct (fireTimer_shape t w) as (-> & _).
           assert (length (filter (λ u, t_id u ≠ t_id t) (timers w))
                   < length (timers w))%nat; [|lia].
           apply length_filter_lt with t; [done|]. by intros H.
        -- congruence.
        -- done.
        -- split; [done|split; congruence].
    + assert (T < t_due tm) by by apply (nextDue_None T (timers w)).
      lia.
Qed.

Lemma runTimers_clock (T : Z) (fuel : nat) (w : World) :
  clock w ≤ clock (runTimers fuel T w) ≤ Z.max (clock w) T.
Proof.
  revert w. induction fuel as [|fuel IH]; intros w; cbn; [lia|].
  destruct (nextDue T (timers w)) as [t|] eqn:E; [|lia].
  apply nextDue_Some in E as [_ Hdue].
  specialize (IH (fireTimer t w)).
  destruct (fireTimer_shape t w) as (_ & _ & _ & Hc & _). lia.
Qed.

Lemma advance_clock (T : Z) (w : World) :
  clock (advance T w) = Z.max (clock w) T.
Proof.
  unfold advance. cbn.
  pose proof (runTimers_clock T (length (timers w)) w). lia.
Qed.

Lemma advance_not_due (T : Z) (w : World) :
  timers_ok w → (∀ t, t ∈ pending_under key w → T < t_due t) →
  timers_ok (advance T w)
  ∧ pending_under key (advance T w) = pending_under key w
  ∧ fired_under key (advance T w) = fired_under key w.
Proof.
  intros Hok Hlate.
  apply (runTimers_not_due T (length (timers w)) w Hok Hlate).
Qed.

Lemma advance_due (T : Z) (tm : Timer) (w : World) :
  timers_ok w → pending_under key w = [tm] → t_due tm ≤ T →
  timers_ok (advance T w)
  ∧ pending_under key (advance T w) = []
  ∧ fired_under key (advance T w) = fired_under key w ++ [tm].
Proof.
  intros Hok Hp Hdue.
  by apply (runTimers_due T tm (length (timers w)) w Hok).
Qed.

Lemma lastCall_cons (first next : Call) (rest : list Call) :
  lastCall first (next :: rest) = lastCall next rest.
Proof. unfold lastCall. rewrite last_cons. by destruct (last rest). Qed.

Lemma toInt32_id (n : Z) : int32 n → toInt32 n = n.
Proof. unfold int32, toInt32. intros Hn. rewrite Z.mod_small; lia. Qed.

Lemma burst_pending (rest : list Call) :
  ∀ (w : World) (tm : Timer) (c0 : Z) (f0 : Func) (d0 : Z),
    timers_ok w → pending_under key w = [tm] → t_func tm = f0 →
    t_due tm = c0 + Z.max 0 d0 → clock w = c0 → within_delay c0 d0 rest →
    Forall (λ c, int32 (call_delay c)) rest →
    let w' := fold_left (λ w '(t, f, d), debounce key f d (advance t w))
                rest w in
    timers_ok w'
    ∧ fired_under key w' = fired_under key w
    ∧ ∃ tm', pending_under key w' = [tm']
             ∧ t_func tm' = call_func (lastCall (c0, f0, d0) rest)
             ∧ t_due tm'
               = call_time (lastCall (c0, f0, d0) rest)
                 + Z.max 0 (call_delay (lastCall (c0, f0, d0) rest)).
Proof.
  induction rest as [|[[t f] d] rest IH];
    intros w tm c0 f0 d0 Hok Hp Hf Hdue Hc Hwd Hds.
  - cbn. split; [done|]. split; [done|]. by exists tm.
  - destruct Hwd as (Hle & Hlt & Hwd). rewrite lastCall_cons.
    apply Forall_cons in Hds as [Hd Hds]. cbn [fold_left].
    destruct (advance_not_due t w Hok) as (Hok1 & Hp1 & Hf1).
    { rewrite Hp. intros ? ->%list_elem_of_singleton. lia. }
    pose proof (advance_clock t w) as Hc1.
    pose proof (debounce_pending key f d _ Hok1) as Hp2.
    destruct (debounce_timers key f d (advance t w))
      as (_ & _ & _ & Hc2 & Hf2).
    destruct (IH (debounce key f d (advance t w)) _ t f d
                (debounce_ok key f d _ Hok1) Hp2 eq_refl)
      as (Hok' & Hfired & tm' & Hpend); try done.
    + cbn [t_due]. rewrite Hc1, (toInt32_id d) by done. f_equal. lia.
    + rewrite Hc2, Hc1. lia.
    + split; [done|]. split; [|by exists tm'].
      rewrite Hfired. unfold fired_under at 1. rewrite Hf2.
      by fold (fired_under key (advance t w)); rewrite Hf1.
Qed.

Lemma fireAll_cons (t : Timer) (ts : list Timer) (w : World) :
  fireAll (t :: ts) w = fireAll ts (fireTimer t w).
Proof. done. Qed.

Lemma runTimers_fireAll (T : Z) (fuel : nat) (w : World) :
  ∃ new, runTimers fuel T w = fireAll new w
         ∧ fired (runTimers fuel T w) = fired w ++ new.
Proof.
  revert w. induction fuel as [|fuel IH]; intros w; cbn.
  - exists []. by rewrite app_nil_r.
  - destruct (nextDue T (timers w)) as [t|]; [|exists []; by rewrite app_nil_r].
    destruct (IH (fireTimer t w)) as (new & Hrun & Hfired).
    exists (t :: new). split; [done|]. rewrite Hfired.
    destruct (fireTimer_shape t w) as (_ & _ & _ & _ & ->).
    by rewrite <- app_assoc.
Qed.

Lemma advance_fireAll (T : Z) (w : World) :
  ∃ new, fired (advance T w) = fired w ++ new
         ∧ advance T w = with_clock (Z.max (clock w) T) (fireAll new w).
Proof.
  destruct (runTimers_fireAll T (length (timers w)) w) as (new & Hrun & Hf).
  exists new. split; [done|].
  pose proof (runTimers_clock T (length (timers w)) w) as Hc.
  unfold advance. cbn zeta. rewrite <- Hrun. f_equal. lia.
Qed.

(** The timer pending under [key] fires between timers of other names. *)
Lemma runTimers_due_split (T : Z) (tm : Timer) (fuel : nat) (w : World) :
  timers_ok w → (length (timers w) ≤ fuel)%nat →
  pending_under key w = [tm] → t_due tm ≤ T →
  ∃ before after,
    runTimers fuel T w = fireAll after (fireTimer tm (fireAll before w))
    ∧ timers_ok (fireAll before w) ∧ tm ∈ timers (fireAll before w).
Proof.
  revert w. induction fuel as [|fuel IH]; intros w Hok Hlen Hp Hdue.
  - assert (tm ∈ pending_under key w) as [_ Hin]%list_elem_of_filter
      by (rewrite Hp; left).
    destruct (timers w); [by apply elem_of_nil in Hin|cbn in Hlen; lia].
  - assert (tm ∈ pending_under key w) as [Hkm Hinm]%list_elem_of_filter
      by (rewrite Hp; left).
    cbn. destruct (nextDue T (timers w)) as [t|] eqn:E.
    + apply nextDue_Some in E as [Hin Hdt].
      destruct (decide (t_key t = key)) as [Hk|Hk].
      * assert (t = tm) as ->.
        { assert (t ∈ pending_under key w) as Ht
            by by apply list_elem_of_filter.
          rewrite Hp in Ht. by apply list_elem_of_singleton in Ht. }
        destruct (runTimers_fireAll T fuel (fireTimer tm w)) as (new & -> & _).
        by exists [], new.
      * destruct (fire_other t w Hok Hin Hk) as [Hp' Hf'].
        destruct (IH (fireTimer t w)) as (before & after & Hrun & ? & ?).
        -- by apply fireTimer_ok.
        -- destruct (fireTimer_shape t w) as (-> & _).
           assert (length (filter (λ u, t_id u ≠ t_id t) (timers w))
                   < length (timers w))%nat; [|lia].
           apply length_filter_lt with t; [done|]. by intros H.
        -- congruence.
        -- done.
        -- by exists (t :: before), after.
    + assert (T < t_due tm) by by apply (nextDue_None T (timers w)).
      lia.
Qed.

End PerName.

(** * Invariants of the reachable worlds *)

Lemma cache_ok_subseteq (w w' : World) :
  mediaCache (state w') ⊆ mediaCache (state w) → cache_ok w → cache_ok w'.
Proof.
  intros Hsub Hok k e He. apply (Hok k e).
  by apply (lookup_weaken _ _ _ _ He).
Qed.

Lemma observers_ok_same (w w' : World) :
  mutationObservers w' = mutationObservers w →
  observers (state w') = observers (state w) →
  observers_ok w → observers_ok w'.
Proof. unfold observers_ok. by intros -> ->. Qed.

Lemma quiet_inv (w w' : World) : quiet w w' → Inv w → Inv w'.
Proof.
  intros (Ht & Hm & Ho & Hc & Hr) (It & Io & Ic & Ir).
  split; [by apply timers_ok_same with w|].
  split; [by apply observers_ok_same with w|].
  split; [by apply cache_ok_subseteq with w|auto].
Qed.

Lemma requests_ok_emit (e : Effect) (w : World) :
  match e with
  | Fetch _ _ q _ => truthy_prim q = true
  | _ => True
  end →
  requests_ok w → requests_ok (emit e w).
Proof.
  intros He Hok url action q token Hin. cbn in Hin.
  apply elem_of_app in Hin as [Hin|Heq%list_elem_of_singleton];
    [by apply (Hok url action q token)|by subst e].
Qed.

Lemma loadQuestionMedia_quiet q f w :
  quiet w (world_of (loadQuestionMedia q f w)).
Proof.
  split; [apply loadQuestionMedia_timing|].
  unfold loadQuestionMedia.
  destruct (truthy_prim q) eqn:Hq; cbn [negb]; [|by cbn].
  assert (∀ w0, requests_ok w0 →
            requests_ok (emit (Fetch (ajaxUrl (host w0))
                                 "get_question_acf_media" q (nonce (host w0)))
                           w0)) as Hreq
    by (intros w0; by apply requests_ok_emit).
  destruct f; cbn [negb]; [by cbn; auto|].
  unfold getCachedMedia.
  destruct (mediaCache (state w) !! q) as [cached|] eqn:E.
  - case_bool_decide.
    + destruct (truthy (data cached)); [|by cbn; auto].
      unfold displayMedia. by repeat case_match.
    + cbn. repeat split; try done; [apply delete_subseteq|].
      intros Hok. by apply (Hreq (with_state _ w)).
  - cbn. repeat split; try done; [apply delete_subseteq|].
    intros Hok. by apply (Hreq (with_state _ w)).
Qed.

Lemma quiet_refl (w : World) : quiet w w.
Proof. split; [apply same_timing_refl|]. by repeat split. Qed.

Lemma quiet_trans (w1 w2 w3 : World) : quiet w1 w2 → quiet w2 w3 → quiet w1 w3.
Proof.
  intros (Ht & Hm & Ho & Hc & Hr) (Ht' & Hm' & Ho' & Hc' & Hr').
  split; [by apply same_timing_trans with w2|].
  repeat split; [congruence..| |auto]. by etrans.
Qed.

Lemma navigationAction_quiet (w : World) :
  quiet w (world_of (navigationAction w)).
Proof.
  unfold navigationAction. case_match; [|apply quiet_refl].
  eapply quiet_trans; [|apply loadQuestionMedia_quiet].
  split; [by repeat split|]. by repeat split.
Qed.

Lemma initialize_quiet (w : World) : quiet w (world_of (initialize w)).
Proof.
  unfold initialize. repeat case_match; try apply quiet_refl.
  - eapply quiet_trans; [|apply loadQuestionMedia_quiet].
    split; [by repeat split|]. by repeat split.
  - split; [by repeat split|]. by repeat split.
Qed.

Lemma with_page_quiet root cls c (w : World) : quiet w (with_page root cls c w).
Proof. split; [by repeat split|]. by repeat split. Qed.

Lemma runFunc_rest (func : Func) (w : World) :
  rest_ok w → rest_ok (world_of (runFunc func w)).
Proof.
  intros (Io & Ic & Ir). destruct func; cbn.
  - destruct (navigationAction_quiet w) as (_ & Hm & Ho & Hc & Hr).
    split; [by apply observers_ok_same with w|].
    split; [by apply cache_ok_subseteq with w|auto].
  - unfold checkAnswerAndEnforceHint.
    destruct (i_wrapper input) as [wrapper|]; [|done]. cbn.
    split; [|done].
    intros id o Hlook Hconn. cbn in *.
    apply lookup_app_Some in Hlook as [Hold|[Hlen Hnew]].
    + apply elem_of_app. left. by apply (Io id o).
    + apply elem_of_app. right. apply list_elem_of_singleton.
      destruct (id - length (mutationObservers w))%nat as [|n] eqn:E;
        [lia|done].
Qed.

Lemma fireTimer_rest (t : Timer) (w : World) :
  rest_ok w → rest_ok (fireTimer t w).
Proof.
  intros Hrest. unfold fireTimer, timerCallback.
  match goal with |- context [runFunc ?f ?w0] =>
    pose proof (runFunc_rest f w0 Hrest) as H;
    destruct (runFunc f w0) end; exact H.
Qed.

Lemma runTimers_inv (T : Z) (fuel : nat) (w : World) :
  Inv w → Inv (runTimers fuel T w).
Proof.
  revert w. induction fuel as [|fuel IH]; [done|]. intros w [It Ir]. cbn.
  destruct (nextDue T (timers w)) as [t|] eqn:E; [|done].
  apply nextDue_Some in E as [Hin _]. apply IH. split.
  - by apply fireTimer_ok.
  - by apply fireTimer_rest.
Qed.

Lemma advance_inv (T : Z) (w : World) : Inv w → Inv (advance T w).
Proof. intros HI. apply (runTimers_inv T (length (timers w)) w HI). Qed.

Lemma debounce_inv (key : string) (func : Func) (delay : Z) (w : World) :
  Inv w → Inv (debounce key func delay w).
Proof.
  intros [It Ir]. split; [by apply debounce_ok|].
  unfold debounce. by destruct (debounceTimers (state w) !! key).
Qed.

Lemma onNavigationClick_inv (w : World) : Inv w → Inv (onNavigationClick w).
Proof.
  unfold onNavigationClick. destruct (initialized (state w)); [|done].
  apply debounce_inv.
Qed.

Lemma onInputClick_inv (input : InputEl) (w : World) :
  Inv w → Inv (onInputClick input w).
Proof.
  unfold onInputClick. case_match; [|done]. apply debounce_inv.
Qed.

Lemma emit_inv (e : Effect) (w : World) :
  match e with
  | Fetch _ _ q _ => truthy_prim q = true
  | _ => True
  end →
  Inv w → Inv (emit e w).
Proof.
  intros He (It & Io & Ic & Ir).
  split; [exact It|]. split; [exact Io|]. split; [exact Ic|].
  by apply requests_ok_emit.
Qed.

Lemma addClass_inv (target : nat) (c : string) (w : World) :
  Inv w → Inv (addClass target c w).
Proof. unfold addClass. by case_match. Qed.

Lemma disconnect_inv (observer : nat) (w : World) :
  Inv w → Inv (disconnect observer w).
Proof.
  intros (It & Io & Ic & Ir).
  split; [exact It|]. split; [|by split].
  intros id o Hlook Hconn. cbn in *.
  destruct (decide (observer = id)) as [->|Hne].
  - rewrite list_lookup_alter_eq in Hlook.
    destruct (mutationObservers w !! id); [|done].
    cbn in Hlook. by injection Hlook as <-.
  - rewrite list_lookup_alter_ne in Hlook by done. by apply (Io id o).
Qed.

Lemma showHintRequirement_inv question (w : World) :
  Inv w → Inv (showHintRequirement question w).
Proof.
  intros HI. unfold showHintRequirement. destruct question as [q|]; [|done].
  destruct (q_tip q); [|done]. by apply onNavigationClick_inv, emit_inv.
Qed.

Lemma onMutation_inv observer question (w : World) (m : MutationRecord) :
  Inv w → Inv (onMutation observer question w m).
Proof.
  intros HI. unfold onMutation. repeat case_match; try done.
  - apply disconnect_inv. unfold handleIncorrectAnswer.
    by apply showHintRequirement_inv, emit_inv.
  - apply disconnect_inv. unfold handleCorrectAnswer.
    by apply emit_inv, addClass_inv.
Qed.

Lemma deliver_inv observer batch (w : World) :
  Inv w → Inv (deliver observer batch w).
Proof.
  unfold deliver. destruct (mutationObservers w !! observer) as [o|]; [|done].
  destruct (o_connected o); [|done]. unfold observerCallback.
  generalize (o_question o). intros question.
  revert w. induction batch as [|m batch IH]; [done|]. intros w HI. cbn.
  by apply IH, onMutation_inv.
Qed.

Lemma displayMedia_quiet (m : JsVal) (w : World) :
  quiet w (world_of (displayMedia m w)).
Proof.
  unfold displayMedia. destruct (container w); [|apply quiet_refl].
  destruct (get_prop m "type"); [|apply quiet_refl].
  split; [by repeat split|]. by repeat split.
Qed.

Lemma displayFallbackMedia_quiet (w : World) :
  quiet w (displayFallbackMedia w).
Proof.
  unfold displayFallbackMedia. case_match; [|apply quiet_refl].
  split; [by repeat split|]. by repeat split.
Qed.

Lemma cacheMedia_inv (q : Prim) (media : JsVal) (w : World) :
  truthy_prim q = true → truthy media = true →
  Inv w → Inv (cacheMedia q media w).
Proof.
  intros Hq Hm (It & Io & Ic & Ir).
  split; [exact It|]. split; [exact Io|]. split; [|exact Ir].
  intros k e. cbn. rewrite lookup_insert.
  case_decide as Hk; [|apply Ic]. intros [= <-]. by subst k.
Qed.

Lemma onResponse_inv (q : Prim) (r : Response) (w : World) :
  truthy_prim q = true → Inv w → Inv (world_of (onResponse q r w)).
Proof.
  intros Hq HI. rewrite onResponse_spec. cbn.
  destruct (wellFormed r) as [media|] eqn:Hwf.
  - eapply quiet_inv; [apply displayMedia_quiet|].
    apply cacheMedia_inv; [done| |done]. by apply wellFormed_truthy with r.
  - by eapply quiet_inv; [apply displayFallbackMedia_quiet|].
Qed.

Lemma foldr_clearTimeout (ids : list nat) (w : World) :
  foldr clearTimeout w ids
  = with_timers (filter (λ t, t_id t ∉ ids) (timers w)) (nextTimer w) w.
Proof.
  induction ids as [|id ids IH]; cbn.
  - rewrite filter_all; [by destruct w|]. intros t _. apply not_elem_of_nil.
  - rewrite IH. unfold clearTimeout. cbn. unfold with_timers. cbn. f_equal.
    rewrite list_filter_filter. apply list_filter_iff. intros t.
    rewrite not_elem_of_cons. tauto.
Qed.

Lemma foldr_disconnect (ids : list nat) (w : World) :
  ∃ mos, foldr disconnect w ids = with_mutationObservers mos w
         ∧ length mos = length (mutationObservers w)
         ∧ ∀ id o', mos !! id = Some o' →
             ∃ o, mutationObservers w !! id = Some o
                  ∧ (o_connected o' = true →
                       o_connected o = true ∧ id ∉ ids).
Proof.
  induction ids as [|i ids IH]; cbn.
  - exists (mutationObservers w). split; [by destruct w|]. split; [done|].
    intros id o' Hl. exists o'. split; [done|]. intros Hc. split; [done|].
    apply not_elem_of_nil.
  - destruct IH as (mos & -> & Hlen & Hmos).
    exists (alter (λ o, mkObserver (o_question o) (o_target o) false) i mos).
    split; [done|]. split; [by rewrite length_alter|].
    intros id o' Hl. destruct (decide (i = id)) as [->|Hne].
    + rewrite list_lookup_alter_eq in Hl.
      destruct (mos !! id) as [o0|] eqn:E; [|done].
      destruct (Hmos id o0 E) as (o & Ho & _).
      exists o. split; [done|]. cbn in Hl. by injection Hl as <-.
    + rewrite list_lookup_alter_ne in Hl by done.
      destruct (Hmos id o' Hl) as (o & Ho & Hc).
      exists o. split; [done|]. intros Hconn.
      destruct (Hc Hconn) as [? ?]. split; [done|].
      rewrite not_elem_of_cons. auto.
Qed.

Lemma cleanup_shape (w : World) :
  timers (cleanup w)
  = filter (λ t, t_id t ∉ (map_to_list (debounceTimers (state w))).*2)
      (timers w)
  ∧ nextTimer (cleanup w) = nextTimer w
  ∧ debounceTimers (state (cleanup w)) = ∅
  ∧ mediaCache (state (cleanup w)) = ∅
  ∧ observers (state (cleanup w)) = []
  ∧ effects (cleanup w) = effects w
  ∧ fired (cleanup w) = fired w
  ∧ length (mutationObservers (cleanup w)) = length (mutationObservers w)
  ∧ ∀ id o', mutationObservers (cleanup w) !! id = Some o' →
      ∃ o, mutationObservers w !! id = Some o
           ∧ (o_connected o' = true →
                o_connected o = true ∧ id ∉ observers (state w)).
Proof.
  unfold cleanup. rewrite foldr_clearTimeout.
  match goal with |- context [foldr disconnect ?w0 ?ids] =>
    destruct (foldr_disconnect ids w0) as (mos & -> & Hlen & Hmos) end.
  cbn in *. by repeat split.
Qed.

Lemma cleanup_timers (w : World) : timers_ok w → timers (cleanup w) = [].
Proof.
  intros (Hreg & _ & _). destruct (cleanup_shape w) as (-> & _).
  apply filter_none. intros t Hin Hnot. apply Hnot.
  apply list_elem_of_fmap. exists (t_key t, t_id t). split; [done|].
  apply elem_of_map_to_list. by apply Hreg.
Qed.

Lemma cleanup_disconnected (w : World) (id : nat) (o' : Observer) :
  observers_ok w → mutationObservers (cleanup w) !! id = Some o' →
  o_connected o' = false.
Proof.
  intros Io Hl.
  destruct (cleanup_shape w) as (_ & _ & _ & _ & _ & _ & _ & _ & Hmos).
  destruct (Hmos id o' Hl) as (o & Ho & Hc).
  destruct (o_connected o') eqn:E; [|done].
  destruct (Hc eq_refl) as [Hconn Hnot]. exfalso. apply Hnot.
  by apply (Io id o).
Qed.

Lemma cleanup_inv (w : World) : Inv w → Inv (cleanup w).
Proof.
  intros (It & Io & Ic & Ir).
  pose proof (cleanup_timers w It) as Ht.
  destruct (cleanup_shape w) as (_ & Hn & Hr & Hc & Ho & He & _).
  split; [|split; [|split]].
  - unfold timers_ok, timers_registered, timers_fresh, timers_nodup.
    rewrite Ht. split; [|split]; [by intros ? ?%elem_of_nil..|].
    apply NoDup_nil_2.
  - intros id o' Hl Hconn.
    by rewrite (cleanup_disconnected w id o' Io Hl) in Hconn.
  - intros k e. by rewrite Hc, lookup_empty.
  - unfold requests_ok. by rewrite He.
Qed.

Lemma exec_inv (e : Event) (w : World) :
  Inv w → enabled e w → Inv (exec e w).
Proof.
  intros HI Hen. destruct e; cbn.
  - by eapply quiet_inv; [apply initialize_quiet|].
  - by apply onNavigationClick_inv.
  - case_bool_decide.
    + by apply onNavigationClick_inv, onInputClick_inv.
    + by apply onInputClick_inv.
  - by apply advance_inv.
  - by apply deliver_inv.
  - destruct Hen as (url & action & token & Hin).
    apply onResponse_inv; [|done].
    destruct HI as (_ & _ & _ & Ir). by apply (Ir url action _ token).
  - by eapply quiet_inv; [apply with_page_quiet|].
  - by apply cleanup_inv.
Qed.

Lemma reachable_inv (w : World) : reachable w → Inv w.
Proof.
  induction 1 as [h now root cls c|e w Hreach IH Hen].
  - split; [|split; [|split]].
    + split; [|split]; [by intros ? ?%elem_of_nil..|]. apply NoDup_nil_2.
    + by intros id o.
    + intros k e. cbn. by rewrite lookup_empty.
    + by intros url action q token ?%elem_of_nil.
  - by apply exec_inv.
Qed.

Lemma watchers_later_same (w w' : World) :
  mutationObservers w' = mutationObservers w → watchers_later w w'.
Proof. intros Hm id o Hl. exists o. by rewrite Hm. Qed.

Lemma timers_later_same (w w' : World) : same_timing w w' → timers_later w w'.
Proof.
  intros (Ht & Hn & _ & _ & Hf). unfold timers_later. rewrite Ht, Hn, Hf.
  split; [done|]. split; [auto|]. exists []. rewrite app_nil_r.
  split; [done|]. by intros u ?%elem_of_nil.
Qed.

Lemma later_refl (w : World) : later w w.
Proof.
  split; [by apply watchers_later_same|].
  apply timers_later_same, same_timing_refl.
Qed.

Lemma later_trans (w1 w2 w3 : World) : later w1 w2 → later w2 w3 → later w1 w3.
Proof.
  intros [Hw (Hn & Ht & new & Hf & Hnew)] [Hw' (Hn' & Ht' & new' & Hf' & Hnew')].
  split.
  - intros id o Hl. destruct (Hw id o Hl) as (o' & Hl' & Hc).
    destruct (Hw' id o' Hl') as (o'' & Hl'' & Hc'). exists o''. auto.
  - split; [lia|]. split.
    + intros t [Hin|Hid]%Ht'; [auto|right; lia].
    + exists (new ++ new'). split; [by rewrite Hf', Hf, <- app_assoc|].
      intros u [Hin|Hin]%elem_of_app; [auto|].
      destruct (Hnew' u Hin) as [Hu|Hu]; [auto|right; lia].
Qed.

Lemma quiet_later (w w' : World) : quiet w w' → later w w'.
Proof.
  intros (Ht & Hm & _). split; [by apply watchers_later_same|].
  by apply timers_later_same.
Qed.

Lemma debounce_later key func delay (w : World) :
  later w (debounce key func delay w).
Proof.
  destruct (debounce_timers key func delay w) as (Ht & Hn & _ & _ & Hf).
  split.
  - apply watchers_later_same. unfold debounce.
    by destruct (debounceTimers (state w) !! key).
  - unfold timers_later. rewrite Ht, Hn, Hf. split; [lia|]. split.
    + intros t [[_ Hin]%list_elem_of_filter| ->%list_elem_of_singleton]%elem_of_app;
        [by left|by right].
    + exists []. rewrite app_nil_r. split; [done|]. by intros u ?%elem_of_nil.
Qed.

Lemma disconnect_later observer (w : World) : later w (disconnect observer w).
Proof.
  split; [|by apply timers_later_same].
  intros id o Hl. cbn. destruct (decide (observer = id)) as [->|Hne].
  - rewrite list_lookup_alter_eq, Hl. cbn. eauto.
  - rewrite list_lookup_alter_ne; [|done]. eauto.
Qed.

Lemma runFunc_later func (w : World) : later w (world_of (runFunc func w)).
Proof.
  destruct func; cbn; [apply quiet_later, navigationAction_quiet|].
  split; [|apply timers_later_same, checkAnswerAndEnforceHint_timing].
  unfold checkAnswerAndEnforceHint.
  destruct (i_wrapper input); [|by apply watchers_later_same].
  intros id o Hl. exists o. cbn. split; [|done].
  apply lookup_app_l_Some. done.
Qed.

Lemma fireTimer_later (t : Timer) (w : World) :
  t ∈ timers w → later w (fireTimer t w).
Proof.
  intros Hin. destruct (fireTimer_shape t w) as (Ht & Hn & _ & _ & Hf).
  split.
  - unfold fireTimer, timerCallback.
    match goal with |- context [runFunc ?f ?w0] =>
      destruct (runFunc_later f w0) as [Hw _];
      destruct (runFunc f w0) end; exact Hw.
  - unfold timers_later. rewrite Ht, Hn, Hf. split; [done|]. split.
    + intros u [_ Hu]%list_elem_of_filter. by left.
    + exists [t]. split; [done|]. intros u ->%list_elem_of_singleton. by left.
Qed.

Lemma runTimers_later (T : Z) (fuel : nat) (w : World) :
  later w (runTimers fuel T w).
Proof.
  revert w. induction fuel as [|fuel IH]; intros w; cbn; [apply later_refl|].
  destruct (nextDue T (timers w)) as [t|] eqn:E; [|apply later_refl].
  apply nextDue_Some in E as [Hin _].
  eapply later_trans; [by apply fireTimer_later|apply IH].
Qed.

Lemma advance_later (T : Z) (w : World) : later w (advance T w).
Proof. apply (runTimers_later T (length (timers w)) w). Qed.

Lemma emit_later e (w : World) : later w (emit e w).
Proof. split; [by apply watchers_later_same|by apply timers_later_same]. Qed.

Lemma onNavigationClick_later (w : World) : later w (onNavigationClick w).
Proof.
  unfold onNavigationClick. case_match; [apply debounce_later|apply later_refl].
Qed.

Lemma onMutation_later observer question (w : World) m :
  later w (onMutation observer question w m).
Proof.
  unfold onMutation. repeat case_match; try apply later_refl.
  - eapply later_trans; [|apply disconnect_later].
    unfold handleIncorrectAnswer, showHintRequirement.
    repeat case_match; try apply emit_later.
    eapply later_trans; [apply emit_later|].
    eapply later_trans; [apply emit_later|apply onNavigationClick_later].
  - eapply later_trans; [|apply disconnect_later].
    unfold handleCorrectAnswer.
    eapply later_trans; [|apply emit_later].
    unfold addClass. case_match; [apply later_refl|].
    split; [by apply watchers_later_same|by apply timers_later_same].
Qed.

Lemma deliver_later observer batch (w : World) :
  later w (deliver observer batch w).
Proof.
  unfold deliver.
  destruct (mutationObservers w !! observer) as [o|]; [|apply later_refl].
  destruct (o_connected o); [|apply later_refl]. unfold observerCallback.
  generalize (o_question o). intros question.
  revert w. induction batch as [|m batch IH]; intros w; [apply later_refl|].
  cbn. eapply later_trans; [apply onMutation_later|apply IH].
Qed.

Lemma cleanup_later (w : World) : later w (cleanup w).
Proof.
  destruct (cleanup_shape w) as (Ht & Hn & _ & _ & _ & _ & Hf & Hlen & Hmos).
  split.
  - intros id o Hl.
    destruct (lookup_lt_is_Some_2 (mutationObservers (cleanup w)) id)
      as [o' Hl'].
    { rewrite Hlen. by apply lookup_lt_Some with o. }
    exists o'. split; [done|]. intros Hdis.
    destruct (Hmos id o' Hl') as (o2 & Ho2 & Hc).
    destruct (o_connected o') eqn:E; [|done].
    destruct (Hc eq_refl) as [Hconn _]. congruence.
  - unfold timers_later. rewrite Ht, Hn, Hf. split; [done|]. split.
    + intros t [_ Hin]%list_elem_of_filter. by left.
    + exists []. rewrite app_nil_r. split; [done|]. by intros u ?%elem_of_nil.
Qed.

Lemma exec_later (e : Event) (w : World) : later w (exec e w).
Proof.
  destruct e; cbn.
  - apply quiet_later, initialize_quiet.
  - apply onNavigationClick_later.
  - assert (later w (onInputClick input w)) as Hin.
    { unfold onInputClick. case_match; [apply debounce_later|apply later_refl]. }
    case_bool_decide; [|done].
    eapply later_trans; [exact Hin|apply onNavigationClick_later].
  - apply advance_later.
  - apply deliver_later.
  - rewrite onResponse_spec. cbn. case_match.
    + eapply later_trans; [|apply quiet_later, displayMedia_quiet].
      split; [by apply watchers_later_same|by apply timers_later_same].
    + apply quiet_later, displayFallbackMedia_quiet.
  - apply quiet_later, with_page_quiet.
  - apply cleanup_later.
Qed.

Lemma run_later (es : list Event) (w : World) : later w (run es w).
Proof.
  revert w. induction es as [|e es IH]; intros w; [apply later_refl|].
  cbn. eapply later_trans; [apply exec_later|apply IH].
Qed.

Lemma busyWorld_reachable : reachable busyWorld.
Proof.
  unfold busyWorld. repeat (apply reach_step; [|try exact I]).
  - apply reach_init.
  - exists "/wp-admin/admin-ajax.php", "get_question_acf_media", "n0nce".
    vm_compute. left.
Defined.

(** * Debouncer *)

Lemma navigationAction_normal (w : World) :
  ∃ w', navigationAction w = Normal w'.
Proof.
  unfold navigationAction. case_match; [|eauto].
  unfold loadQuestionMedia. case_match; [eauto|]. cbn [negb].
  destruct (getCachedMedia _ _) as [cached w1].
  destruct (truthy cached) eqn:E; [by apply displayMedia_truthy|eauto].
Qed.

Lemma runFunc_completes (func : Func) (w : World) :
  completes func → ∃ w', runFunc func w = Normal w'.
Proof.
  destruct func as [|question input]; cbn.
  - intros _. apply navigationAction_normal.
  - intros [wrapper Hw]. unfold checkAnswerAndEnforceHint. rewrite Hw. eauto.
Qed.

(** ** What a firing does *)

Lemma fireTimer_runs (t : Timer) (w : World) :
  fireTimer t w
  = match runFunc (t_func t) (atFiring t w) with
    | Normal w' => unregister (t_key t) w'
    | Throws w' => w'
    end.
Proof. done. Qed.

Lemma fireAll_preserves (P : World → Prop) (ts : list Timer) (w : World) :
  (∀ u w0, P w0 → P (fireTimer u w0)) → P w → P (fireAll ts w).
Proof.
  intros HP. revert w. induction ts as [|t ts IH]; intros w Hw; [done|].
  rewrite fireAll_cons. apply IH. by apply HP.
Qed.

Lemma advance_preserves (P : World → Prop) (T : Z) (w : World) :
  (∀ u w0, P w0 → P (fireTimer u w0)) →
  (∀ c w0, P w0 → P (with_clock c w0)) →
  P w → P (advance T w).
Proof.
  intros HP Hc Hw. destruct (advance_fireAll T w) as (new & _ & ->).
  apply Hc. by apply fireAll_preserves.
Qed.

Lemma burst_preserves (P : World → Prop) (key : string) (func : Func)
    (delay : Z) (rest : list Call) (w : World) :
  (∀ u w0, P w0 → P (fireTimer u w0)) →
  (∀ c w0, P w0 → P (with_clock c w0)) →
  (∀ f d w0, P w0 → P (debounce key f d w0)) →
  P w → P (burst key func delay rest w).
Proof.
  intros HP Hc Hd Hw. unfold burst.
  assert (P (debounce key func delay w)) as H0 by by apply Hd.
  revert H0. generalize (debounce key func delay w).
  induction rest as [|[[t f] d] rest IH]; intros w0 H0; [done|].
  cbn [fold_left]. apply IH, Hd. by apply advance_preserves.
Qed.

Lemma runFunc_document (func : Func) (w : World) :
  document (world_of (runFunc func w)) = document w.
Proof. destruct func; cbn [runFunc]; frame. Qed.

Lemma fireTimer_document (t : Timer) (w : World) :
  document (fireTimer t w) = document w.
Proof.
  rewrite fireTimer_runs.
  pose proof (runFunc_document (t_func t) (atFiring t w)) as Hd.
  by destruct (runFunc _ _).
Qed.

Lemma debounce_frame (key : string) (func : Func) (delay : Z) (w : World) :
  document (debounce key func delay w) = document w
  ∧ currentQuestion (state (debounce key func delay w))
    = currentQuestion (state w)
  ∧ mutationObservers (debounce key func delay w) = mutationObservers w
  ∧ observers (state (debounce key func delay w)) = observers (state w).
Proof. unfold debounce. by destruct (debounceTimers (state w) !! key). Qed.

(** The navigation closure records the located question. *)
Lemma navigationAction_records (w : World) :
  truthy_prim (getCurrentQuestionId (document w)) = true →
  currentQuestion (state (world_of (navigationAction w)))
  = getCurrentQuestionId (document w).
Proof.
  intros Hq. unfold navigationAction. rewrite Hq. cbn [andb].
  case_bool_decide as Hsame; cbn [negb world_of]; [done|].
  set (q := getCurrentQuestionId (document w)).
  unfold loadQuestionMedia.
  destruct (truthy_prim q); cbn [negb]; [|done].
  unfold getCachedMedia.
  cbn [state with_state mediaCache set_currentQuestion clock].
  destruct (mediaCache (state w) !! q) as [e|]; [case_bool_decide|]; try done.
  destruct (truthy (data e)); [|done].
  unfold displayMedia. by repeat case_match.
Qed.

(** Once the located question is the recorded one, no closure changes it. *)
Lemma runFunc_settled (func : Func) (w : World) :
  currentQuestion (state w) = getCurrentQuestionId (document w) →
  currentQuestion (state (world_of (runFunc func w)))
  = currentQuestion (state w).
Proof.
  intros Hq. destruct func as [|question input]; cbn [runFunc].
  - unfold navigationAction. rewrite Hq.
    by rewrite bool_decide_eq_true_2, andb_false_r.
  - unfold checkAnswerAndEnforceHint. by destruct (i_wrapper input).
Qed.

Lemma fireTimer_settled (D : Elem) (t : Timer) (w : World) :
  document w = D ∧ currentQuestion (state w) = getCurrentQuestionId D →
  document (fireTimer t w) = D
  ∧ currentQuestion (state (fireTimer t w)) = getCurrentQuestionId D.
Proof.
  intros [Hd Hq]. split; [by rewrite fireTimer_document|].
  rewrite fireTimer_runs.
  pose proof (runFunc_settled (t_func t) (atFiring t w)) as Hs.
  change (document (atFiring t w)) with (document w) in Hs.
  change (currentQuestion (state (atFiring t w)))
    with (currentQuestion (state w)) in Hs.
  rewrite Hd in Hs. specialize (Hs Hq). rewrite <- Hq, <- Hs.
  by destruct (runFunc _ _).
Qed.

(** Closures only ever append observers. *)
Lemma runFunc_watchers (func : Func) (w : World) :
  mutationObservers w
    `prefix_of` mutationObservers (world_of (runFunc func w))
  ∧ observers (state w)
      `prefix_of` observers (state (world_of (runFunc func w))).
Proof.
  destruct func as [|question input]; cbn [runFunc].
  - destruct (navigationAction_quiet w) as (_ & -> & -> & _). done.
  - unfold checkAnswerAndEnforceHint. destruct (i_wrapper input); cbn; [|done].
    split; by apply prefix_app_r.
Qed.

Lemma fireTimer_watchers (t : Timer) (w : World) :
  mutationObservers w `prefix_of` mutationObservers (fireTimer t w)
  ∧ observers (state w) `prefix_of` observers (state (fireTimer t w)).
Proof.
  rewrite fireTimer_runs.
  pose proof (runFunc_watchers (t_func t) (atFiring t w)) as Hp.
  by destruct (runFunc _ _).
Qed.

Lemma fireTimer_armed (n : nat) (o : Observer) (t : Timer) (w : World) :
  (∃ id, (n ≤ id)%nat ∧ mutationObservers w !! id = Some o
         ∧ id ∈ observers (state w)) →
  ∃ id, (n ≤ id)%nat ∧ mutationObservers (fireTimer t w) !! id = Some o
        ∧ id ∈ observers (state (fireTimer t w)).
Proof.
  intros (id & Hn & Hl & Hin). exists id. split; [done|].
  destruct (fireTimer_watchers t w) as [Hm [k ->]].
  split; [by apply (prefix_lookup_Some _ _ _ _ Hl)|].
  apply elem_of_app. by left.
Qed.

Lemma fireTimer_free (key : string) (t : Timer) (w : World) :
  debounceTimers (state w) !! key = None →
  debounceTimers (state (fireTimer t w)) !! key = None.
Proof.
  intros Hk. destruct (fireTimer_shape t w) as (_ & _ & [-> | ->] & _);
    [|done].
  destruct (decide (t_key t = key)) as [->|Hne];
    [apply lookup_delete_eq|by rewrite lookup_delete_ne].
Qed.

(** Claim C4, amended.  In every reachable world at most one timer is
    pending under any given name.  Scheduling under a name leaves exactly the
    new timer pending under it.  A timer that fires runs its closure once, in
    the world where the timer has left the table, enters the firing log and
    leaves no timer pending under its name; when the closure returns, the
    registration of the name is cleared, when it throws, the name stays
    registered with the handle of the fired timer.  Waiting, in any world,
    fires timers one after another, and the firing log lists exactly these
    firings.  For a burst of calls under one name, with delays in the signed
    32-bit range and each call less than the previous call's delay after it,
    waiting out the last delay fires exactly one timer under that name: the
    one of the last call.  Its closure has run: the
    navigation closure has recorded the located question, the answer check
    has armed a watcher on its wrapper; and when that closure returns, the
    name is free again. *)
Theorem debounce_one_timer_per_name (w : World) (key : string) :
  reachable w →
  (length (pending_under key w) ≤ 1)%nat
  ∧ (∀ func delay,
       pending_under key (debounce key func delay w)
       = [mkTimer (nextTimer w) (clock w + Z.max 0 (toInt32 delay)) key func])
  ∧ (∀ t, t ∈ timers w → t_key t = key →
       pending_under key (fireTimer t w) = []
       ∧ fired_under key (fireTimer t w) = fired_under key w ++ [t]
       ∧ (∀ w', runFunc (t_func t) (atFiring t w) = Normal w' →
            fireTimer t w = unregister key w'
            ∧ debounceTimers (state (fireTimer t w)) !! key = None)
       ∧ (∀ w', runFunc (t_func t) (atFiring t w) = Throws w' →
            fireTimer t w = w'
            ∧ debounceTimers (state (fireTimer t w)) !! key = Some (t_id t))
       ∧ (completes (t_func t) →
            ∃ w', runFunc (t_func t) (atFiring t w) = Normal w'))
  ∧ (∀ w0 T, ∃ new, fired (advance T w0) = fired w0 ++ new
                    ∧ advance T w0
                      = with_clock (Z.max (clock w0) T) (fireAll new w0))
  ∧ (∀ func delay rest T,
       int32 delay → Forall (λ c, int32 (call_delay c)) rest →
       within_delay (clock w) delay rest →
       call_time (lastCall (clock w, func, delay) rest)
       + Z.max 0 (call_delay (lastCall (clock w, func, delay) rest)) ≤ T →
       ∃ tm, t_func tm = call_func (lastCall (clock w, func, delay) rest)
             ∧ fired_under key (afterBurst key func delay rest T w)
               = fired_under key w ++ [tm]
             ∧ pending_under key (afterBurst key func delay rest T w) = []
             ∧ (completes (t_func tm) →
                  debounceTimers (state (afterBurst key func delay rest T w))
                    !! key = None)
             ∧ (t_func tm = FNavigation →
                truthy_prim (getCurrentQuestionId (document w)) = true →
                  currentQuestion (state (afterBurst key func delay rest T w))
                  = getCurrentQuestionId (document w))
             ∧ (∀ question input wrapper,
                  t_func tm = FAnswerCheck question input →
                  i_wrapper input = Some wrapper →
                  ∃ id, (length (mutationObservers w) ≤ id)%nat
                        ∧ mutationObservers
                            (afterBurst key func delay rest T w) !! id
                          = Some (mkObserver question wrapper true)
                        ∧ id ∈ observers
                                 (state (afterBurst key func delay rest T w)))).
Proof.
  intros [Hok _]%reachable_inv. split; [by apply at_most_one_pending|].
  split; [intros; by apply debounce_pending|]. split; [|split].
  - intros t Hin Hk. destruct (fire_same key t w Hok Hin Hk) as [Hp Hfd].
    split; [done|]. split; [done|].
    pose proof (runFunc_timing (t_func t) (atFiring t w)) as (_ & _ & Hr & _).
    rewrite fireTimer_runs, Hk. split; [|split].
    + intros w' Hw'. rewrite Hw'. split; [done|]. apply lookup_delete_eq.
    + intros w' Hw'. rewrite Hw' in Hr |- *. split; [done|].
      cbn in Hr. rewrite Hr, <- Hk. destruct Hok as (Hreg & _). by apply Hreg.
    + apply runFunc_completes.
  - intros w0 T. apply advance_fireAll.
  - intros func delay rest T Hd Hds Hwd HT. unfold afterBurst.
    set (wB := burst key func delay rest w).
    destruct (debounce_timers key func delay w) as (_ & _ & _ & Hc & Hf).
    destruct (burst_pending key rest (debounce key func delay w) _
                (clock w) func delay (debounce_ok key func delay w Hok)
                (debounce_pending key func delay w Hok) eq_refl)
      as (HokB & HfB & tm & HpB & Hfn & Hdue); try done.
    { cbn [t_due]. by rewrite toInt32_id. }
    fold (burst key func delay rest w) in HokB, HfB, HpB.
    fold wB in HokB, HfB, HpB.
    destruct (advance_due key T tm wB HokB HpB) as (_ & Hpend & Hfired);
      [lia|].
    destruct (runTimers_due_split key T tm (length (timers wB)) wB HokB)
      as (before & after & Hrun & Hok0 & Hin0); [done|done|lia|].
    set (w0 := fireAll before wB) in *.
    assert (advance T wB
            = with_clock (Z.max (clock (runTimers (length (timers wB)) T wB)) T)
                (fireAll after (fireTimer tm w0))) as Hadv
      by (unfold advance; cbn zeta; by rewrite <- Hrun).
    assert (t_key tm = key) as Hkey.
    { assert (tm ∈ pending_under key wB) as [? _]%list_elem_of_filter
        by (rewrite HpB; left). done. }
    exists tm. split; [done|]. split.
    { rewrite Hfired, HfB. unfold fired_under. by rewrite Hf. }
    split; [done|]. split; [|split].
    + intros Hcomp. rewrite Hadv. cbn.
      apply fireAll_preserves; [intros; by apply fireTimer_free|].
      destruct (runFunc_completes _ (atFiring tm w0) Hcomp) as [w' Hw'].
      rewrite fireTimer_runs, Hw', Hkey. apply lookup_delete_eq.
    + intros Hnav Hq. rewrite Hadv. cbn.
      set (D := document w) in *.
      assert (document w0 = D) as Hd0.
      { subst w0. apply fireAll_preserves;
          [intros u x <-; apply fireTimer_document|].
        subst wB. apply (burst_preserves (λ x, document x = D));
          [intros u x <-; apply fireTimer_document|done| |done].
        intros f d x <-. apply debounce_frame. }
      apply (fireAll_preserves
               (λ x, document x = D
                     ∧ currentQuestion (state x) = getCurrentQuestionId D));
        [intros u x; apply fireTimer_settled|].
      split; [by rewrite fireTimer_document|].
      rewrite fireTimer_runs, Hnav. cbn [runFunc].
      pose proof (navigationAction_records (atFiring tm w0)) as Hrec.
      destruct (navigationAction_normal (atFiring tm w0)) as [w' Hw'].
      rewrite Hw' in Hrec |- *. cbn in Hrec |- *. rewrite Hd0 in Hrec.
      by apply Hrec.
    + intros question input wrapper Hcheck Hwr. rewrite Hadv.
      set (n := length (mutationObservers w)).
      assert (n ≤ length (mutationObservers w0))%nat as Hn0.
      { subst w0. apply fireAll_preserves.
        { intros u x Hx. destruct (fireTimer_watchers u x) as [Hm _].
          apply prefix_length in Hm. lia. }
        subst wB. apply (burst_preserves
                           (λ x, (n ≤ length (mutationObservers x))%nat));
          [|done| |done].
        - intros u x Hx. destruct (fireTimer_watchers u x) as [Hm _].
          apply prefix_length in Hm. lia.
        - intros f d x Hx.
          by destruct (debounce_frame key f d x) as (_ & _ & -> & _). }
      cbn [mutationObservers state with_clock].
      apply (fireAll_preserves
               (λ x, ∃ id, (n ≤ id)%nat
                           ∧ mutationObservers x !! id
                             = Some (mkObserver question wrapper true)
                           ∧ id ∈ observers (state x)));
        [intros u x; apply fireTimer_armed|].
      exists (length (mutationObservers w0)). split; [done|].
      rewrite fireTimer_runs, Hcheck. cbn [runFunc].
      unfold checkAnswerAndEnforceHint. rewrite Hwr. cbn.
      split; [by rewrite list_lookup_middle|].
      apply elem_of_app. right. by left.
Qed.

Lemma debounce_one_timer_per_name_witness :
  (length (pending_under "navigation" busyWorld) ≤ 1)%nat
  ∧ ∃ tm id,
      t_func tm = FAnswerCheck None demoInput
      ∧ fired_under "navigation"
          (afterBurst "navigation" FNavigation 100
             [(110, FNavigation, 100); (200, FAnswerCheck None demoInput, 100)]
             400 busyWorld)
        = fired_under "navigation" busyWorld ++ [tm]
      ∧ mutationObservers
          (afterBurst "navigation" FNavigation 100
             [(110, FNavigation, 100); (200, FAnswerCheck None demoInput, 100)]
             400 busyWorld) !! id
        = Some (mkObserver None 7 true).
Proof.
  destruct (debounce_one_timer_per_name busyWorld "navigation"
              busyWorld_reachable) as (Hone & _ & _ & _ & Hburst).
  split; [exact Hone|].
  destruct (Hburst FNavigation 100
              [(110, FNavigation, 100); (200, FAnswerCheck None demoInput, 100)]
              400) as (tm & Hf & Hfired & _ & _ & _ & Harmed).
  - unfold int32. lia.
  - repeat constructor; cbn; lia.
  - vm_compute. repeat split; discriminate.
  - vm_compute. discriminate.
  - destruct (Harmed None demoInput 7%nat Hf eq_refl) as (id & _ & Hid & _).
    exists tm, id. split; [exact Hf|]. split; [exact Hfired|exact Hid].
Defined.

(** Claim C4 as stated fails.  The answer check of an input without
    enclosing wrapper throws when its timer fires, and the name of the timer
    stays registered; and a first call with a delay of 2^31 ms fires at once,
    so that a second call one millisecond later makes two closures run. *)
Lemma fired_timer_stays_registered :
  reachable strayWorld
  ∧ mkTimer 0 50 "answer-check-2" (FAnswerCheck (Some demoQuestion) strayInput)
    ∈ timers strayWorld
  ∧ debounceTimers
      (state (fireTimer
                (mkTimer 0 50 "answer-check-2"
                   (FAnswerCheck (Some demoQuestion) strayInput))
                strayWorld)) !! "answer-check-2"
    = Some 0%nat
  ∧ reachable busyWorld
  ∧ within_delay (clock busyWorld) 2147483648 [(61, FNavigation, 100)]
  ∧ length (fired_under "navigation"
              (afterBurst "navigation" FNavigation 2147483648
                 [(61, FNavigation, 100)] 400 busyWorld))
    = (length (fired_under "navigation" busyWorld) + 2)%nat.
Proof.
  split.
  { unfold strayWorld. repeat (apply reach_step; [|exact I]).
    apply reach_init. }
  split; [vm_compute; left|]. split; [vm_compute; reflexivity|].
  split; [apply busyWorld_reachable|].
  split; [vm_compute; repeat split; discriminate|].
  vm_compute. reflexivity.
Qed.

(** * Teardown *)

(** Claim C8.  After [cleanup] in a reachable world no timer is pending, no
    name is registered, the media cache is empty and every observer is
    disconnected.  Whatever happens afterwards, none of the timers that were
    pending before the cleanup is pending again or fires, and none of the
    observers that existed before it reacts to a batch of mutations. *)
Theorem cleanup_cancels_everything (w : World) (es : list Event) :
  reachable w →
  timers (cleanup w) = []
  ∧ debounceTimers (state (cleanup w)) = ∅
  ∧ mediaCache (state (cleanup w)) = ∅
  ∧ (∀ id o, mutationObservers (cleanup w) !! id = Some o →
       o_connected o = false)
  ∧ (∀ t, t ∈ timers w → t ∉ timers (run es (cleanup w)))
  ∧ (∃ new, fired (run es (cleanup w)) = fired w ++ new
            ∧ ∀ t, t ∈ timers w → t ∉ new)
  ∧ (∀ id batch, (id < length (mutationObservers w))%nat →
       deliver id batch (run es (cleanup w)) = run es (cleanup w)).
Proof.
  intros (It & Io & _)%reachable_inv.
  pose proof (cleanup_timers w It) as Ht.
  destruct (cleanup_shape w) as (_ & Hn & Hr & Hc & _ & _ & Hf & Hlen & _).
  destruct (run_later es (cleanup w)) as [Hw (_ & Hts & new & Hfired & Hnew)].
  assert (∀ t u, t ∈ timers w →
            u ∈ timers (cleanup w) ∨ (nextTimer (cleanup w) ≤ t_id u)%nat →
            t ≠ u) as Hold.
  { intros t u Hin [Hu|Hu] ->; [by rewrite Ht in Hu; apply elem_of_nil in Hu|].
    destruct It as (_ & Hfresh & _). specialize (Hfresh u Hin). lia. }
  split; [done|]. split; [done|]. split; [done|].
  split; [intros id o; by apply cleanup_disconnected|].
  split; [|split].
  - intros t Hin Hin'. by apply (Hold t t Hin (Hts t Hin')).
  - exists new. split; [by rewrite Hfired, Hf|].
    intros t Hin Hin'. by apply (Hold t t Hin (Hnew t Hin')).
  - intros id batch Hid.
    destruct (lookup_lt_is_Some_2 (mutationObservers (cleanup w)) id)
      as [o Hl]; [by rewrite Hlen|].
    destruct (Hw id o Hl) as (o' & Hl' & Hdis).
    unfold deliver. rewrite Hl'.
    by rewrite Hdis by by apply (cleanup_disconnected w id o).
Qed.

Lemma cleanup_cancels_everything_witness :
  timers busyWorld ≠ []
  ∧ mutationObservers busyWorld !! 0%nat
    = Some (mkObserver (Some demoQuestion) 7 true)
  ∧ timers (cleanup busyWorld) = []
  ∧ mediaCache (state (cleanup busyWorld)) = ∅
  ∧ deliver 0 [classMutation 7]
      (run [PageChanged thirdItemPage
              {[7%nat := ["wpProQuiz_answerIncorrect"]]} None; Tick 1000]
         (cleanup busyWorld))
    = run [PageChanged thirdItemPage
             {[7%nat := ["wpProQuiz_answerIncorrect"]]} None; Tick 1000]
        (cleanup busyWorld).
Proof.
  destruct (cleanup_cancels_everything busyWorld
              [PageChanged thirdItemPage
                 {[7%nat := ["wpProQuiz_answerIncorrect"]]} None; Tick 1000]
              busyWorld_reachable) as (Ht & _ & Hc & _ & _ & _ & Hd).
  split; [vm_compute; discriminate|]. split; [reflexivity|].
  split; [exact Ht|]. split; [exact Hc|].
  apply Hd. vm_compute. lia.
Defined.

(** * Fetcher, continued *)

(** Claim C5, amended.  In a reachable world, [loadQuestionMedia] without
    force and with a fresh cached entry for the question id hands that entry
    to the renderer and sends nothing.  With force and a truthy question id
    it sends one request to the configured endpoint, carrying the question id
    and the host's token, whatever the cache holds.  For a falsy question id
    it returns at once, with or without force: the world stays as it is, so
    nothing is rendered, requested or evicted. *)
Theorem loadQuestionMedia_cache_or_request (w : World) (questionId : Prim) :
  reachable w →
  (∀ e, mediaCache (state w) !! questionId = Some e →
        clock w - timestamp e < cacheTimeout →
        loadQuestionMedia questionId false w = displayMedia (data e) w
        ∧ effects (world_of (loadQuestionMedia questionId false w))
          = effects w)
  ∧ (truthy_prim questionId = true →
     ∀ force, force = true →
        loadQuestionMedia questionId force w
        = Normal (emit (Fetch (ajaxUrl (host w)) "get_question_acf_media"
                          questionId (nonce (host w))) w))
  ∧ (truthy_prim questionId = false →
     ∀ force, loadQuestionMedia questionId force w = Normal w).
Proof.
  intros (_ & _ & Ic & _)%reachable_inv. split; [|split].
  - intros e He Hfresh. destruct (Ic questionId e He) as [Hk Hd].
    assert (loadQuestionMedia questionId false w = displayMedia (data e) w)
      as Hload.
    { unfold loadQuestionMedia, getCachedMedia.
      by rewrite Hk, He, bool_decide_eq_true_2, Hd. }
    split; [done|]. rewrite Hload. unfold displayMedia.
    by repeat case_match.
  - intros Hk force ->. unfold loadQuestionMedia. by rewrite Hk.
  - intros Hk force. unfold loadQuestionMedia. by rewrite Hk.
Qed.

Lemma loadQuestionMedia_cache_or_request_witness :
  loadQuestionMedia (PNum 3) false busyWorld = displayMedia demoMedia busyWorld
  ∧ effects (world_of (loadQuestionMedia (PNum 3) true busyWorld))
    = effects busyWorld
      ++ [Fetch "/wp-admin/admin-ajax.php" "get_question_acf_media" (PNum 3)
            "n0nce"]
  ∧ loadQuestionMedia (PStr EmptyString) false busyWorld = Normal busyWorld.
Proof.
  destruct (loadQuestionMedia_cache_or_request busyWorld (PNum 3)
              busyWorld_reachable) as (Hhit & Hforce & _).
  destruct (loadQuestionMedia_cache_or_request busyWorld (PStr EmptyString)
              busyWorld_reachable) as (_ & _ & Hfalsy).
  split; [|split].
  - apply (Hhit (mkEntry demoMedia 0)); [reflexivity|vm_compute; reflexivity].
  - rewrite (Hforce eq_refl true eq_refl). reflexivity.
  - apply Hfalsy. reflexivity.
Defined.

(** Claim C5 as stated fails: forced loading of the falsy question id 0
    returns at the guard and sends no request. *)
Lemma loadQuestionMedia_forced_without_request :
  reachable busyWorld
  ∧ loadQuestionMedia (PNum 0) true busyWorld = Normal busyWorld
  ∧ effects (world_of (loadQuestionMedia (PNum 0) true busyWorld))
    = effects busyWorld.
Proof. split; [apply busyWorld_reachable|]. by split. Qed.

(** * Navigation *)

(** Claim C10.  The debounced navigation closure reloads media exactly when
    the located question id is truthy and differs from the recorded one, and
    it records the new id first.  When the located id equals the recorded
    one, the closure, and with it the timer callback, leaves the recorded
    question, the cache, the container and the outgoing effects as they
    were. *)
Theorem navigation_reloads_only_on_change (w : World) :
  let questionId := getCurrentQuestionId (document w) in
  (questionId = currentQuestion (state w) → navigationAction w = Normal w)
  ∧ (truthy_prim questionId = false → navigationAction w = Normal w)
  ∧ (truthy_prim questionId = true →
     questionId ≠ currentQuestion (state w) →
     navigationAction w
     = loadQuestionMedia questionId false
         (with_state (set_currentQuestion questionId) w))
  ∧ (questionId = currentQuestion (state w) →
     ∀ t, t_func t = FNavigation →
          currentQuestion (state (timerCallback t w))
          = currentQuestion (state w)
          ∧ mediaCache (state (timerCallback t w)) = mediaCache (state w)
          ∧ container (timerCallback t w) = container w
          ∧ effects (timerCallback t w) = effects w).
Proof.
  intros questionId. unfold navigationAction. fold questionId.
  split; [|split; [|split]].
  - intros ->. rewrite bool_decide_eq_true_2 by done.
    by rewrite andb_false_r.
  - by intros ->.
  - intros -> Hne. by rewrite bool_decide_eq_false_2.
  - intros Heq t Hf. unfold timerCallback. rewrite Hf. cbn [runFunc].
    unfold navigationAction. cbn [document state record_fired currentQuestion].
    fold questionId. rewrite Heq, bool_decide_eq_true_2 by done.
    by rewrite andb_false_r.
Qed.

Lemma navigation_reloads_only_on_change_witness :
  currentQuestion (state settledWorld) = PNum 3
  ∧ navigationAction settledWorld = Normal settledWorld.
Proof.
  split; [reflexivity|].
  apply (proj1 (navigation_reloads_only_on_change settledWorld)).
  reflexivity.
Defined.

(** * Answer watcher *)

Lemma onNavigationClick_page (w : World) :
  effects (onNavigationClick w) = effects w
  ∧ classOf (onNavigationClick w) = classOf w
  ∧ mutationObservers (onNavigationClick w) = mutationObservers w.
Proof.
  unfold onNavigationClick, debounce.
  by destruct (initialized (state w)),
    (debounceTimers (state w) !! "navigation").
Qed.

Lemma handleIncorrectAnswer_page (q : QuestionEl) (target : nat) (w : World) :
  q_tip q = true →
  effects (handleIncorrectAnswer (Some q) target w)
  = effects w ++ [NavDisabled true; HintRequired q]
  ∧ classOf (handleIncorrectAnswer (Some q) target w) = classOf w
  ∧ mutationObservers (handleIncorrectAnswer (Some q) target w)
    = mutationObservers w.
Proof.
  intros Htip. unfold handleIncorrectAnswer, showHintRequirement.
  rewrite Htip.
  match goal with |- context [onNavigationClick ?w0] =>
    destruct (onNavigationClick_page w0) as (-> & -> & ->) end.
  cbn. by rewrite <- app_assoc.
Qed.

Lemma onMutation_incorrect (observer target : nat) (q : QuestionEl)
    (w : World) :
  hasClass target "wpProQuiz_answerIncorrect" w = true →
  onMutation observer (Some q) w (classMutation target)
  = disconnect observer (handleIncorrectAnswer (Some q) target w).
Proof. intros Hc. unfold onMutation. cbn. by rewrite Hc. Qed.

(** A batch of one record: the watcher reacts once and is detached. *)
Lemma watcher_single_record (w : World) (observer target : nat) (o : Observer)
    (q : QuestionEl) :
  mutationObservers w !! observer = Some o → o_connected o = true →
  o_question o = Some q → q_tip q = true →
  hasClass target "wpProQuiz_answerIncorrect" w = true →
  let w' := deliver observer [classMutation target] w in
  effects w' = effects w ++ [NavDisabled true; HintRequired q]
  ∧ (∀ batch, deliver observer batch w' = w').
Proof.
  intros Hl Hconn Hq Htip Hc w'. subst w'.
  unfold deliver at 1 3 4. rewrite Hl, Hconn, Hq. unfold observerCallback. cbn [fold_left].
  rewrite onMutation_incorrect by done.
  destruct (handleIncorrectAnswer_page q target w Htip) as (He & _ & Hm).
  split; [exact He|].
  intros batch. unfold deliver. cbn [mutationObservers disconnect with_mutationObservers].
  rewrite list_lookup_alter_eq, Hm, Hl. reflexivity.
Qed.

(** Claim C2, which the code breaks.  When a connected watcher is handed a
    batch of two class-attribute records for a wrapper marked as answered
    wrongly, it disables navigation twice and forces the hint twice:
    disconnecting does not stop the loop over the batch. *)
Theorem watcher_fires_once_per_record (w : World) (observer target : nat)
    (o : Observer) (q : QuestionEl) :
  mutationObservers w !! observer = Some o → o_connected o = true →
  o_question o = Some q → q_tip q = true →
  hasClass target "wpProQuiz_answerIncorrect" w = true →
  effects (deliver observer [classMutation target; classMutation target] w)
  = effects w ++ [NavDisabled true; HintRequired q;
                  NavDisabled true; HintRequired q].
Proof.
  intros Hl Hconn Hq Htip Hc.
  unfold deliver. rewrite Hl, Hconn, Hq. unfold observerCallback.
  cbn [fold_left]. rewrite (onMutation_incorrect observer target q w) by done.
  destruct (handleIncorrectAnswer_page q target w Htip) as (He & Hcls & Hm).
  rewrite onMutation_incorrect.
  - match goal with |- context [handleIncorrectAnswer (Some q) target ?w0] =>
      destruct (handleIncorrectAnswer_page q target w0 Htip) as (He' & _) end.
    cbn [effects disconnect with_mutationObservers] in *.
    rewrite He', He. by rewrite <- app_assoc.
  - unfold hasClass in *. cbn [classOf disconnect with_mutationObservers].
    by rewrite Hcls.
Qed.

Lemma watcher_fires_once_per_record_witness :
  effects (deliver 0 [classMutation 7; classMutation 7] markedWorld)
  = effects markedWorld
    ++ [NavDisabled true; HintRequired demoQuestion;
        NavDisabled true; HintRequired demoQuestion].
Proof.
  apply (watcher_fires_once_per_record markedWorld 0 7
           (mkObserver (Some demoQuestion) 7 true) demoQuestion);
    reflexivity.
Defined.

(** * Further properties *)

(** * Renderer, continued *)

Lemma displayMedia_shape (m : JsVal) (w : World) :
  truthy m = true →
  displayMedia m w = Normal w ∧ container w = None
  ∨ ∃ prior fragment,
      container w = Some prior
      ∧ displayMedia m w = Normal (with_container (Some fragment) w)
      ∧ ∀ w', is_Some (container w') →
              displayMedia m w' = Normal (with_container (Some fragment) w').
Proof.
  intros Hm. unfold displayMedia.
  destruct (container w) as [prior|] eqn:Hc; [|by left]. right.
  destruct (get_prop m "type") as [type|] eqn:Ht;
    [|by destruct m as [[]| |]].
  eexists prior, _. split; [done|]. split; [done|].
  intros w' [prior' ->]. done.
Qed.

(** Property X1.  [displayMedia] raises exactly when the media container exists and
    the payload is [undefined] or [null]: it then fails on reading the
    payload's kind and leaves the world as it was.  Without a container it
    returns before looking at the payload, and any other payload is rendered
    without an exception. *)
Theorem displayMedia_throws_on_missing_payload (m : JsVal) (w : World) :
  (is_Some (container w) ∧ (m = undefined ∨ m = null) →
     displayMedia m w = Throws w)
  ∧ (container w = None → displayMedia m w = Normal w)
  ∧ (m ≠ undefined → m ≠ null → ∃ w', displayMedia m w = Normal w').
Proof.
  split; [|split].
  - intros [[prior Hc] [-> | ->]]; unfold displayMedia; by rewrite Hc.
  - intros Hc. unfold displayMedia. by rewrite Hc.
  - intros Hu Hn. unfold displayMedia. destruct (container w); [|eauto].
    destruct m as [[]| |]; cbn; eauto; done.
Qed.

Lemma displayMedia_throws_on_missing_payload_witness :
  displayMedia null (initialWorld demoHost 0 thirdItemPage ∅ (Some []))
  = Throws (initialWorld demoHost 0 thirdItemPage ∅ (Some []))
  ∧ ∃ w', displayMedia (VPrim (PStr "oops"))
            (initialWorld demoHost 0 thirdItemPage ∅ (Some [])) = Normal w'.
Proof.
  destruct (displayMedia_throws_on_missing_payload null
              (initialWorld demoHost 0 thirdItemPage ∅ (Some [])))
    as (Hthrow & _ & _).
  destruct (displayMedia_throws_on_missing_payload (VPrim (PStr "oops"))
              (initialWorld demoHost 0 thirdItemPage ∅ (Some [])))
    as (_ & _ & Hok).
  split.
  - apply Hthrow. split; [by eexists|by right].
  - apply Hok; discriminate.
Defined.

(** Property X2.  What a render leaves in the container depends on the payload
    alone, never on what was shown before: rendering a payload after another
    payload or after the fallback gives the same world as rendering it
    directly, and the fallback likewise replaces whatever a render left. *)
Theorem render_overwrites (m m' : JsVal) (w : World) :
  truthy m = true → truthy m' = true →
  displayMedia m (world_of (displayMedia m' w)) = displayMedia m w
  ∧ displayMedia m (displayFallbackMedia w) = displayMedia m w
  ∧ displayFallbackMedia (world_of (displayMedia m w)) = displayFallbackMedia w
  ∧ displayFallbackMedia (displayFallbackMedia w) = displayFallbackMedia w.
Proof.
  intros Hm Hm'.
  destruct (displayMedia_shape m w Hm)
    as [[Hn Hc]|(prior & fragment & Hc & Hr & Hany)];
  destruct (displayMedia_shape m' w Hm')
    as [[Hn' Hc']|(prior' & fragment' & Hc' & Hr' & Hany')];
    try congruence.
  - rewrite Hn'. cbn [world_of]. rewrite Hn. cbn [world_of].
    unfold displayFallbackMedia. rewrite Hc. by rewrite Hc.
  - rewrite Hr, Hr'. cbn [world_of].
    unfold displayFallbackMedia. rewrite Hc. cbn [container with_container with_page].
    by rewrite !Hany by (by eexists).
Qed.

Lemma render_overwrites_witness :
  displayMedia demoMedia
    (displayFallbackMedia (initialWorld demoHost 0 thirdItemPage ∅ (Some [])))
  = displayMedia demoMedia (initialWorld demoHost 0 thirdItemPage ∅ (Some [])).
Proof.
  apply (render_overwrites demoMedia demoMedia
           (initialWorld demoHost 0 thirdItemPage ∅ (Some [])));
    reflexivity.
Defined.

(** * Fetcher, third part *)

Lemma displayMedia_keeps (m : JsVal) (w : World) :
  let w' := world_of (displayMedia m w) in
  state w' = state w ∧ clock w' = clock w ∧ effects w' = effects w
  ∧ document w' = document w ∧ host w' = host w
  ∧ (container w = None ↔ container w' = None).
Proof.
  unfold displayMedia. destruct (container w) eqn:Hc;
    [destruct (get_prop m "type")|]; cbn; repeat split; congruence.
Qed.

Lemma displayFallbackMedia_keeps (w : World) :
  let w' := displayFallbackMedia w in
  state w' = state w ∧ clock w' = clock w ∧ effects w' = effects w
  ∧ document w' = document w ∧ host w' = host w
  ∧ (container w = None ↔ container w' = None).
Proof.
  unfold displayFallbackMedia. destruct (container w) eqn:Hc; cbn;
    repeat split; congruence.
Qed.

Lemma loadQuestionMedia_normal (q : Prim) (force : bool) (w : World) :
  ∃ w', loadQuestionMedia q force w = Normal w'.
Proof.
  unfold loadQuestionMedia. destruct (truthy_prim q); cbn [negb]; [|eauto].
  destruct force; cbn [negb]; [eauto|].
  destruct (getCachedMedia q w) as [cached w1].
  destruct (truthy cached) eqn:E; [by apply displayMedia_truthy|eauto].
Qed.

(** Property X3.  Although the renderer raises on a missing payload, none of
    [loadQuestionMedia], the debounced navigation closure and [initialize]
    ever does: each of them returns normally for every question id, every
    force flag and every world. *)
Theorem entry_points_never_throw (w : World) :
  (∀ q force, ∃ w', loadQuestionMedia q force w = Normal w')
  ∧ (∃ w', navigationAction w = Normal w')
  ∧ (∃ w', initialize w = Normal w').
Proof.
  split; [intros; apply loadQuestionMedia_normal|].
  split; [apply navigationAction_normal|].
  unfold initialize. repeat case_match; eauto using loadQuestionMedia_normal.
Qed.

Lemma loadQuestionMedia_stale (w : World) (q : Prim) :
  truthy_prim q = true →
  (∀ e, mediaCache (state w) !! q = Some e →
        ¬ clock w - timestamp e < cacheTimeout) →
  loadQuestionMedia q false w
  = Normal (emit (Fetch (ajaxUrl (host w)) "get_question_acf_media" q
                    (nonce (host w)))
              (with_state (λ s, set_mediaCache (delete q (mediaCache s)) s) w)).
Proof.
  intros Hq Hstale. unfold loadQuestionMedia, getCachedMedia. rewrite Hq.
  cbn [negb]. destruct (mediaCache (state w) !! q) as [e|] eqn:He; [|done].
  by rewrite bool_decide_eq_false_2 by by apply Hstale.
Qed.

(** Property X4.  An unforced load of a truthy question id that has no entry,
    or only an expired one, sends exactly one request, removes the entry from
    the cache and leaves the container as it is. *)
Theorem loadQuestionMedia_miss (w : World) (q : Prim) :
  truthy_prim q = true →
  (∀ e, mediaCache (state w) !! q = Some e →
        ¬ clock w - timestamp e < cacheTimeout) →
  let w' := world_of (loadQuestionMedia q false w) in
  effects w' = effects w ++ [Fetch (ajaxUrl (host w)) "get_question_acf_media"
                               q (nonce (host w))]
  ∧ mediaCache (state w') = delete q (mediaCache (state w))
  ∧ container w' = container w.
Proof.
  intros Hq Hstale. cbn zeta. by rewrite loadQuestionMedia_stale.
Qed.

Lemma loadQuestionMedia_miss_witness :
  effects (world_of (loadQuestionMedia (PNum 9) false busyWorld))
  = effects busyWorld
    ++ [Fetch "/wp-admin/admin-ajax.php" "get_question_acf_media" (PNum 9)
          "n0nce"].
Proof.
  apply (loadQuestionMedia_miss busyWorld (PNum 9)).
  - reflexivity.
  - intros e He. vm_compute in He. discriminate He.
Defined.

Lemma onResponse_keeps (q : Prim) (r : Response) (w : World) :
  let w' := world_of (onResponse q r w) in
  mediaCache (state w')
  = match wellFormed r with
    | Some media => <[q := mkEntry media (clock w)]> (mediaCache (state w))
    | None => mediaCache (state w)
    end
  ∧ currentQuestion (state w') = currentQuestion (state w)
  ∧ clock w' = clock w ∧ effects w' = effects w
  ∧ (container w = None ↔ container w' = None).
Proof.
  rewrite onResponse_spec. cbn [world_of].
  destruct (wellFormed r) as [media|].
  - destruct (displayMedia_keeps media (cacheMedia q media w))
      as (-> & -> & -> & _ & _ & Hc). by cbn in *.
  - by destruct (displayFallbackMedia_keeps w) as (-> & -> & -> & _ & _ & Hc).
Qed.

Lemma onResponse_container (q q' : Prim) (r : Response) (w w' : World) :
  (container w = None ↔ container w' = None) →
  container (world_of (onResponse q r w))
  = container (world_of (onResponse q' r w')).
Proof.
  intros Hiff. rewrite !onResponse_spec. cbn [world_of].
  destruct (wellFormed r) as [media|] eqn:Hwf.
  - pose proof (wellFormed_truthy r media Hwf) as Hm.
    destruct (displayMedia_shape media (cacheMedia q media w) Hm)
      as [[Hn Hc]|(prior & fragment & Hc & Hr & Hany)].
    + rewrite Hn. cbn in Hc |- *. rewrite Hc.
      apply Hiff in Hc. unfold displayMedia. cbn. by rewrite Hc.
    + rewrite Hr, Hany; [done|]. cbn in Hc |- *.
      destruct (container w') eqn:E; [by eexists|].
      destruct Hiff as [_ Hiff]. specialize (Hiff eq_refl). congruence.
  - unfold displayFallbackMedia.
    destruct (container w) eqn:E, (container w') eqn:E'; try done.
    + destruct Hiff as [_ Hiff]. by specialize (Hiff eq_refl).
    + destruct Hiff as [Hiff _]. by specialize (Hiff eq_refl).
    + congruence.
Qed.

(** Property X5.  Once a well-formed answer for a truthy question id has been
    handled, an unforced load of that id less than the time-to-live after the
    answer renders the stored payload and sends nothing; from then on it
    sends a new request and the entry is gone. *)
Theorem response_then_reload (w : World) (q : Prim) (r : Response)
    (media : JsVal) (T : Z) :
  truthy_prim q = true → wellFormed r = Some media →
  let w1 := with_clock T (world_of (onResponse q r w)) in
  (T - clock w < cacheTimeout →
     loadQuestionMedia q false w1 = displayMedia media w1
     ∧ effects (world_of (loadQuestionMedia q false w1)) = effects w)
  ∧ (¬ T - clock w < cacheTimeout →
     effects (world_of (loadQuestionMedia q false w1))
     = effects w ++ [Fetch (ajaxUrl (host w)) "get_question_acf_media" q
                       (nonce (host w))]
     ∧ mediaCache (state (world_of (loadQuestionMedia q false w1))) !! q
       = None).
Proof.
  intros Hq Hwf w1.
  pose proof (wellFormed_truthy r media Hwf) as Hm.
  destruct (onResponse_keeps q r w) as (Hcache & _ & _ & Heff & _).
  rewrite Hwf in Hcache.
  assert (host (world_of (onResponse q r w)) = host w) as Hhost.
  { rewrite onResponse_spec, Hwf. cbn [world_of].
    by destruct (displayMedia_keeps media (cacheMedia q media w))
      as (_ & _ & _ & _ & -> & _). }
  assert (mediaCache (state w1) !! q = Some (mkEntry media (clock w))) as He.
  { subst w1. cbn. rewrite Hcache. apply lookup_insert_eq. }
  split.
  - intros Hfresh.
    assert (loadQuestionMedia q false w1 = displayMedia media w1) as Hload.
    { unfold loadQuestionMedia, getCachedMedia. rewrite Hq, He. cbn.
      by rewrite bool_decide_eq_true_2, Hm. }
    split; [done|]. rewrite Hload.
    by destruct (displayMedia_keeps media w1) as (_ & _ & -> & _).
  - intros Hstale. unfold loadQuestionMedia, getCachedMedia. rewrite Hq, He.
    cbn. rewrite bool_decide_eq_false_2 by done. cbn.
    rewrite Heff, Hhost. split; [done|]. apply lookup_delete_eq.
Qed.

Lemma response_then_reload_witness :
  let w := initialWorld demoHost 0 thirdItemPage ∅ (Some []) in
  let w1 := with_clock 29999 (world_of (onResponse (PNum 3) (Body demoBody) w)) in
  loadQuestionMedia (PNum 3) false w1 = displayMedia demoMedia w1.
Proof.
  intros w w1.
  apply (response_then_reload w (PNum 3) (Body demoBody) demoMedia 29999);
    reflexivity.
Defined.

(** Property X6.  Answers are rendered in the order in which they arrive,
    whatever question is current: after two answers the container shows what
    the second alone would have produced, the recorded question is
    untouched, and two well-formed answers for different ids are both in the
    cache. *)
Theorem last_response_wins (w : World) (q1 q2 : Prim) (r1 r2 : Response) :
  let w2 := world_of (onResponse q2 r2 (world_of (onResponse q1 r1 w))) in
  container w2 = container (world_of (onResponse q2 r2 w))
  ∧ currentQuestion (state w2) = currentQuestion (state w)
  ∧ (∀ m1 m2, q1 ≠ q2 → wellFormed r1 = Some m1 → wellFormed r2 = Some m2 →
       mediaCache (state w2) !! q1 = Some (mkEntry m1 (clock w))
       ∧ mediaCache (state w2) !! q2 = Some (mkEntry m2 (clock w))).
Proof.
  intros w2. subst w2. split; [|split].
  - apply onResponse_container.
    destruct (onResponse_keeps q1 r1 w) as (_ & _ & _ & _ & Hc). tauto.
  - destruct (onResponse_keeps q1 r1 w) as (_ & <- & _).
    by destruct (onResponse_keeps q2 r2 (world_of (onResponse q1 r1 w)))
      as (_ & -> & _).
  - intros m1 m2 Hne H1 H2.
    destruct (onResponse_keeps q1 r1 w) as (Hc1 & _ & Hclock & _).
    destruct (onResponse_keeps q2 r2 (world_of (onResponse q1 r1 w)))
      as (Hc2 & _).
    rewrite H1 in Hc1. rewrite H2 in Hc2. rewrite Hc2, Hc1, Hclock.
    split; [|apply lookup_insert_eq].
    rewrite lookup_insert_ne by done. apply lookup_insert_eq.
Qed.

Lemma last_response_wins_witness :
  let w := initialWorld demoHost 0 thirdItemPage ∅ (Some []) in
  let w2 := world_of (onResponse (PNum 2) (Body demoBody)
                        (world_of (onResponse (PNum 1) (Body demoBody) w))) in
  mediaCache (state w2) !! PNum 1 = Some (mkEntry demoMedia 0)
  ∧ mediaCache (state w2) !! PNum 2 = Some (mkEntry demoMedia 0).
Proof.
  intros w w2.
  destruct (last_response_wins w (PNum 1) (PNum 2) (Body demoBody)
              (Body demoBody)) as (_ & _ & Hboth).
  apply (Hboth demoMedia demoMedia); [discriminate|reflexivity|reflexivity].
Defined.

(** Property X7.  An answer that is not well formed leaves the cache as it
    was, so the next unforced load of the same question id sends a request
    again. *)
Theorem malformed_response_not_cached (w : World) (q : Prim) (r : Response) :
  truthy_prim q = true → wellFormed r = None →
  mediaCache (state w) !! q = None →
  let w1 := world_of (onResponse q r w) in
  mediaCache (state w1) = mediaCache (state w)
  ∧ effects (world_of (loadQuestionMedia q false w1))
    = effects w ++ [Fetch (ajaxUrl (host w)) "get_question_acf_media" q
                      (nonce (host w))].
Proof.
  intros Hq Hwf Hmiss w1. subst w1.
  destruct (onResponse_keeps q r w) as (Hcache & _ & _ & Heff & _).
  rewrite Hwf in Hcache. split; [done|].
  assert (host (world_of (onResponse q r w)) = host w) as Hhost.
  { rewrite onResponse_spec, Hwf. cbn [world_of].
    by destruct (displayFallbackMedia_keeps w) as (_ & _ & _ & _ & -> & _). }
  rewrite loadQuestionMedia_stale; [|done|].
  - cbn [world_of effects emit host with_state]. by rewrite Heff, Hhost.
  - intros e. by rewrite Hcache, Hmiss.
Qed.

Lemma malformed_response_not_cached_witness :
  let w := initialWorld demoHost 0 thirdItemPage ∅ (Some []) in
  effects (world_of (loadQuestionMedia (PNum 3) false
                       (world_of (onResponse (PNum 3) ParseError w))))
  = [Fetch "/wp-admin/admin-ajax.php" "get_question_acf_media" (PNum 3)
       "n0nce"].
Proof.
  intros w.
  apply (malformed_response_not_cached w (PNum 3) ParseError); reflexivity.
Defined.

(** * Cache, continued *)

(** Property X8.  Storing twice under a key leaves only the second entry;
    reading a key that is absent returns null and leaves the cache as it
    was; storing under one key or reading it, even when the read evicts,
    changes neither the result of reading nor the entry of any other key. *)
Theorem cache_laws (w : World) (k : Prim) :
  (∀ v1 v2 T,
     cacheMedia k v2 (with_clock T (cacheMedia k v1 w))
     = cacheMedia k v2 (with_clock T w))
  ∧ (mediaCache (state w) !! k = None →
     (getCachedMedia k w).1 = null
     ∧ mediaCache (state (getCachedMedia k w).2) = mediaCache (state w))
  ∧ (∀ k' v, k ≠ k' →
       (getCachedMedia k' (cacheMedia k v w)).1 = (getCachedMedia k' w).1
       ∧ mediaCache (state (getCachedMedia k' (cacheMedia k v w)).2) !! k
         = Some (mkEntry v (clock w))
       ∧ mediaCache (state (getCachedMedia k' w).2) !! k
         = mediaCache (state w) !! k).
Proof.
  split; [|split].
  - intros v1 v2 T.
    unfold cacheMedia, with_state, with_clock, set_mediaCache. cbn.
    by rewrite insert_insert_eq.
  - intros Hk. unfold getCachedMedia. rewrite Hk. cbn. by rewrite delete_id.
  - intros k' v Hne. unfold getCachedMedia. cbn.
    rewrite lookup_insert_ne by done.
    destruct (mediaCache (state w) !! k') as [e|]; [case_bool_decide|]; cbn;
      rewrite ?lookup_delete_ne by done; by rewrite ?lookup_insert_eq.
Qed.

Lemma cache_laws_witness :
  let w := initialWorld demoHost 0 thirdItemPage ∅ (Some []) in
  (getCachedMedia (PStr "7") (cacheMedia (PNum 7) demoMedia w)).1 = null
  ∧ (getCachedMedia (PNum 9) busyWorld).1 = null.
Proof.
  intros w.
  destruct (cache_laws w (PNum 7)) as (_ & _ & Hother).
  destruct (cache_laws busyWorld (PNum 9)) as (_ & Hmissing & _).
  split.
  - destruct (Hother (PStr "7") demoMedia) as [H _]; [discriminate|].
    rewrite H. reflexivity.
  - apply Hmissing. reflexivity.
Defined.

(** * Locator, continued *)

(** Property X9.  The locator answers null exactly when none of its three
    selectors matches an element; every other answer is truthy, so the
    callers' test [if (questionId)] fails only when no question was
    found. *)
Theorem getCurrentQuestionId_null_or_truthy (root : Elem) :
  (getCurrentQuestionId root = PNull ↔ firstMatch root selectors = None)
  ∧ (firstMatch root selectors = None ↔
       query root sel_reviewTarget = [] ∧ query root sel_visibleItem = []
       ∧ query root sel_listedItem = [])
  ∧ (getCurrentQuestionId root = PNull
     ∨ truthy_prim (getCurrentQuestionId root) = true).
Proof.
  unfold getCurrentQuestionId. rewrite probe_firstMatch.
  split; [|split].
  - destruct (firstMatch root selectors) as [q|]; [|done].
    split; [|done]. intros Hq. pose proof (questionIdOf_truthy q) as Ht.
    by rewrite Hq in Ht.
  - unfold selectors. cbn. rewrite <- !head_None.
    destruct (head (query root sel_reviewTarget));
      destruct (head (query root sel_visibleItem));
      destruct (head (query root sel_listedItem)); intuition congruence.
  - destruct (firstMatch root selectors) as [q|]; [|by left].
    right. apply questionIdOf_truthy.
Qed.

(** Property X10.  Among an item's descendants only the first one carrying
    the attribute is consulted: when the item's own value and that
    descendant's value are both falsy, the answer is the item's sibling index
    plus one, whatever later descendants carry. *)
Theorem first_descendant_decides (root : Elem) (q : Located) (d : Elem) :
  firstMatch root selectors = Some q →
  truthy_prim (data_question_id (Some (l_el q))) = false →
  head (find_question_id (l_el q)) = Some d →
  truthy_prim (data_question_id (Some d)) = false →
  getCurrentQuestionId root = PNum (Z.of_nat (l_index q) + 1).
Proof.
  intros Hq Hown Hd Hfalsy. unfold getCurrentQuestionId.
  rewrite probe_firstMatch, Hq. unfold questionIdOf, por.
  by rewrite Hown, Hd, Hfalsy.
Qed.

Lemma first_descendant_decides_witness :
  let item := El ["wpProQuiz_listItem"] true None
                [El [] true (Some (PStr "")) []; El [] true (Some (PNum 9)) []] in
  getCurrentQuestionId (El ["html"] true None [item]) = PNum 1.
Proof.
  intros item.
  apply (first_descendant_decides (El ["html"] true None [item])
           (mkLocated item 0 [El ["html"] true None [item]])
           (El [] true (Some (PStr "")) [])); reflexivity.
Defined.

(** * Navigation, continued *)

Lemma loadQuestionMedia_keeps (q : Prim) (force : bool) (w : World) :
  let w' := world_of (loadQuestionMedia q force w) in
  document w' = document w ∧ host w' = host w
  ∧ currentQuestion (state w') = currentQuestion (state w)
  ∧ initialized (state w') = initialized (state w).
Proof.
  unfold loadQuestionMedia. destruct (truthy_prim q); cbn [negb]; [|done].
  destruct force; cbn [negb]; [done|].
  unfold getCachedMedia.
  destruct (mediaCache (state w) !! q) as [e|]; [case_bool_decide|]; try done.
  destruct (truthy (data e)); [|done].
  by destruct (displayMedia_keeps (data e) w) as (-> & _ & _ & -> & -> & _).
Qed.

(** Property X11.  Running the debounced navigation closure twice in a row
    does nothing the second time: the first run has recorded the question it
    loaded. *)
Theorem navigationAction_idempotent (w : World) :
  navigationAction (world_of (navigationAction w))
  = Normal (world_of (navigationAction w)).
Proof.
  unfold navigationAction at 2 3.
  set (q := getCurrentQuestionId (document w)).
  destruct (truthy_prim q
            && negb (bool_decide (q = currentQuestion (state w)))) eqn:E.
  - destruct (loadQuestionMedia_keeps q false
                (with_state (set_currentQuestion q) w)) as (Hd & _ & Hc & _).
    cbn [document state currentQuestion with_state set_currentQuestion]
      in Hd, Hc.
    unfold navigationAction. rewrite Hd, Hc. fold q.
    rewrite bool_decide_eq_true_2 by done. cbn [negb].
    by rewrite andb_false_r.
  - cbn [world_of]. unfold navigationAction. fold q. by rewrite E.
Qed.

(** * Lifecycle, continued *)

(** Property X12.  As long as the script has not initialised and the page
    has no quiz root, animation frames and clicks, in any number and order,
    leave the world exactly as it is. *)
Theorem not_ready_ignores_events (w : World) (es : list Event) :
  initialized (state w) = false → ¬ quizRootPresent w →
  Forall userEvent es → run es w = w.
Proof.
  intros Hi Hroot Hes. induction Hes as [|e es He _ IH]; [done|].
  cbn. assert (exec e w = w) as ->; [|done].
  destruct e; try done; cbn.
  - unfold initialize. rewrite Hi.
    rewrite bool_decide_eq_true_2; [done|].
    unfold quizRootPresent in Hroot.
    by destruct (decide (query (document w) [[Class "wpProQuiz_content"]] = [])).
  - unfold onNavigationClick. by rewrite Hi.
  - unfold onInputClick. rewrite Hi. cbn [andb].
    unfold onNavigationClick. rewrite Hi. by case_bool_decide.
Qed.

Lemma not_ready_ignores_events_witness :
  let w := initialWorld demoHost 0 (El ["html"] true None []) ∅ None in
  run [Frame; ClickNavigation; ClickInput demoInput; Frame] w = w.
Proof.
  intros w. apply (not_ready_ignores_events w).
  - reflexivity.
  - intros H. apply H. reflexivity.
  - repeat constructor.
Defined.

(** Property X13.  [initialize] on an initialised world changes nothing.  Its
    first success on a page with a quiz root sets the flag, so that a second
    call changes nothing, leaves the recorded question as it was, and sends
    nothing when no question is found. *)
Theorem initialize_once (w : World) :
  (initialized (state w) = true → initialize w = Normal w)
  ∧ (initialized (state w) = false → quizRootPresent w →
     let w' := world_of (initialize w) in
     initialized (state w') = true
     ∧ currentQuestion (state w') = currentQuestion (state w)
     ∧ initialize w' = Normal w'
     ∧ (getCurrentQuestionId (document w) = PNull → effects w' = effects w)).
Proof.
  split; [intros Hi; unfold initialize; by rewrite Hi|].
  intros Hi Hroot w'.
  set (q := getCurrentQuestionId (document w)).
  set (w1 := with_state (set_initialized true) w).
  assert (w' = if truthy_prim q
               then world_of (loadQuestionMedia q false w1) else w1) as Hw'.
  { subst w'. unfold initialize. rewrite Hi, bool_decide_eq_false_2 by done.
    cbn [document with_state]. fold q w1. by destruct (truthy_prim q). }
  destruct (loadQuestionMedia_keeps q false w1) as (_ & _ & Hc & Hin).
  assert (initialized (state w') = true) as Hi'
    by (rewrite Hw'; by destruct (truthy_prim q)).
  split; [done|]. split; [rewrite Hw'; by destruct (truthy_prim q)|].
  split; [unfold initialize; by rewrite Hi'|].
  intros Hnull. rewrite Hw', Hnull. done.
Qed.

(** Property X14.  [initialize] loads the media of the question it finds but
    does not record that question.  On a fresh page, when no answer has
    arrived in between, the first run of the navigation closure therefore
    sends the same request a second time. *)
Theorem first_navigation_requests_again (w : World) :
  initialized (state w) = false → quizRootPresent w →
  currentQuestion (state w) = PNull →
  getCurrentQuestionId (document w) ≠ PNull →
  mediaCache (state w) !! getCurrentQuestionId (document w) = None →
  let request :=
    Fetch (ajaxUrl (host w)) "get_question_acf_media"
      (getCurrentQuestionId (document w)) (nonce (host w)) in
  effects (world_of (initialize w)) = effects w ++ [request]
  ∧ effects (world_of (navigationAction (world_of (initialize w))))
    = effects w ++ [request; request].
Proof.
  intros Hi Hroot Hcur Hq Hmiss.
  set (q := getCurrentQuestionId (document w)) in *.
  assert (truthy_prim q = true) as Ht.
  { subst q. unfold getCurrentQuestionId in *. rewrite probe_firstMatch in *.
    destruct (firstMatch (document w) selectors); [|done].
    apply questionIdOf_truthy. }
  assert (initialize w
          = loadQuestionMedia q false (with_state (set_initialized true) w))
    as Hinit.
  { unfold initialize. rewrite Hi, bool_decide_eq_false_2 by done.
    cbn [document with_state]. fold q. by rewrite Ht. }
  cbn zeta. rewrite Hinit.
  rewrite loadQuestionMedia_stale; [|done|].
  2:{ intros e.
      cbn [state with_state set_initialized mediaCache]. by rewrite Hmiss. }
  cbn [world_of]. split; [done|].
  unfold navigationAction. cbn [document emit with_state state set_mediaCache
    set_initialized currentQuestion]. fold q. rewrite Ht, Hcur.
  rewrite bool_decide_eq_false_2 by (intros Heq; by rewrite Heq in Ht).
  cbn [andb negb].
  rewrite loadQuestionMedia_stale; [|done|].
  - cbn. by rewrite <- app_assoc.
  - intros e. cbn. by rewrite lookup_delete_eq.
Qed.

Lemma initialize_once_witness :
  let w := initialWorld demoHost 0 thirdItemPage ∅ (Some []) in
  initialized (state (world_of (initialize w))) = true
  ∧ initialize busyWorld = Normal busyWorld.
Proof.
  intros w.
  destruct (initialize_once w) as [_ Hfirst].
  destruct (initialize_once busyWorld) as [Hagain _].
  split.
  - apply Hfirst; [reflexivity|]. unfold quizRootPresent. vm_compute.
    discriminate.
  - apply Hagain. reflexivity.
Defined.

Lemma first_navigation_requests_again_witness :
  let w := initialWorld demoHost 0 thirdItemPage ∅ (Some []) in
  effects (world_of (navigationAction (world_of (initialize w))))
  = [Fetch "/wp-admin/admin-ajax.php" "get_question_acf_media" (PNum 3)
       "n0nce";
     Fetch "/wp-admin/admin-ajax.php" "get_question_acf_media" (PNum 3)
       "n0nce"].
Proof.
  intros w.
  apply (first_navigation_requests_again w).
  - reflexivity.
  - unfold quizRootPresent. vm_compute. discriminate.
  - reflexivity.
  - vm_compute. discriminate.
  - reflexivity.
Defined.

(** * Teardown, continued *)

Lemma cleanup_clean (w : World) :
  debounceTimers (state w) = ∅ → observers (state w) = [] →
  mediaCache (state w) = ∅ → cleanup w = w.
Proof.
  destruct w as [[i c m o d r] h now ts n mos doc cls box eff f]. cbn.
  intros -> -> ->. unfold cleanup. cbn. by rewrite map_to_list_empty.
Qed.

(** Property X15.  Cleaning up twice is the same as cleaning up once, and
    cleanup resets neither the initialised flag nor the recorded question and
    touches neither the container nor the effects sent so far. *)
Theorem cleanup_idempotent (w : World) :
  cleanup (cleanup w) = cleanup w
  ∧ initialized (state (cleanup w)) = initialized (state w)
  ∧ currentQuestion (state (cleanup w)) = currentQuestion (state w)
  ∧ container (cleanup w) = container w
  ∧ effects (cleanup w) = effects w.
Proof.
  destruct (cleanup_shape w) as (Ht & Hn & Hr & Hc & Ho & He & _).
  split; [by apply cleanup_clean|].
  unfold cleanup. rewrite foldr_clearTimeout.
  match goal with |- context [foldr disconnect ?w0 ?ids] =>
    destruct (foldr_disconnect ids w0) as (mos & -> & _) end.
  by cbn.
Qed.

(** Property X16.  Cleanup does not remove the click handlers: in a reachable
    initialised world a navigation click right after cleanup starts the
    navigation timer as usual, and it is the only timer pending under that
    name. *)
Theorem click_after_cleanup (w : World) :
  reachable w → initialized (state w) = true →
  pending_under "navigation" (exec ClickNavigation (cleanup w))
  = [mkTimer (nextTimer w) (clock w + debounceDelay) "navigation"
       FNavigation].
Proof.
  intros [Hok _]%reachable_inv%cleanup_inv Hinit.
  destruct (cleanup_shape w) as (_ & Hn & _).
  assert (initialized (state (cleanup w)) = true
          ∧ clock (cleanup w) = clock w) as [Hi Hclock].
  { unfold cleanup. rewrite foldr_clearTimeout.
    match goal with |- context [foldr disconnect ?w0 ?ids] =>
      destruct (foldr_disconnect ids w0) as (mos & -> & _) end.
    by cbn. }
  cbn [exec]. unfold onNavigationClick. rewrite Hi.
  rewrite debounce_pending by done. by rewrite Hn, Hclock.
Qed.

Lemma click_after_cleanup_witness :
  pending_under "navigation" (exec ClickNavigation (cleanup busyWorld))
  = [mkTimer 2 160 "navigation" FNavigation].
Proof.
  rewrite (click_after_cleanup busyWorld busyWorld_reachable eq_refl).
  reflexivity.
Defined.

Lemma getCurrentQuestionId_null_or_truthy_witness :
  getCurrentQuestionId hiddenItemPage = PNull
  ∧ firstMatch thirdItemPage selectors ≠ None.
Proof.
  destruct (getCurrentQuestionId_null_or_truthy hiddenItemPage)
    as (Hnull & Hnone & _).
  destruct (getCurrentQuestionId_null_or_truthy thirdItemPage)
    as (Hnull' & _ & _).
  split.
  - apply Hnull, Hnone. repeat split; reflexivity.
  - intros H. apply Hnull' in H. vm_compute in H. discriminate H.
Defined.

(** * Answer watcher, continued *)

Lemma hasClass_addClass (target target' : nat) (c c' : string) (w : World) :
  hasClass target c (addClass target' c' w)
  = hasClass target c w
    || (bool_decide (target = target') && String.eqb c c').
Proof.
  unfold addClass. destruct (hasClass target' c' w) eqn:Hhas.
  - destruct (bool_decide_reflect (target = target')) as [->|]; cbn;
      [|by rewrite orb_false_r].
    destruct (String.eqb_spec c c') as [->|]; [|by rewrite orb_false_r].
    by rewrite Hhas.
  - unfold hasClass. cbn.
    destruct (bool_decide_reflect (target = target')) as [->|Hne]; cbn.
    + rewrite lookup_insert_eq. cbn. rewrite existsb_app. cbn.
      by rewrite orb_false_r.
    + rewrite lookup_insert_ne by done. by rewrite orb_false_r.
Qed.

Lemma deliver_disconnected (observer : nat) (o : Observer)
    (batch : list MutationRecord) (w : World) :
  mutationObservers w !! observer = Some o → o_connected o = false →
  deliver observer batch w = w.
Proof. intros Hl Hc. unfold deliver. by rewrite Hl, Hc. Qed.

Lemma disconnect_lookup (observer : nat) (o : Observer) (w w0 : World) :
  mutationObservers w0 = mutationObservers w →
  mutationObservers w !! observer = Some o →
  mutationObservers (disconnect observer w0) !! observer
  = Some (mkObserver (o_question o) (o_target o) false).
Proof.
  intros Hm Hl. cbn. by rewrite list_lookup_alter_eq, Hm, Hl.
Qed.

(** Property X17.  When a connected watcher receives one class record for a
    wrapper marked correct and not incorrect, it enables navigation once,
    adds the class [lilac-correct-answer] to the wrapper and no other class,
    starts no timer, and ignores every later batch. *)
Theorem watcher_correct_answer (w : World) (observer target : nat)
    (o : Observer) :
  mutationObservers w !! observer = Some o → o_connected o = true →
  hasClass target "wpProQuiz_answerIncorrect" w = false →
  hasClass target "wpProQuiz_answerCorrect" w = true →
  let w' := deliver observer [classMutation target] w in
  effects w' = effects w ++ [NavDisabled false]
  ∧ hasClass target "lilac-correct-answer" w' = true
  ∧ (∀ c, c ≠ "lilac-correct-answer" →
          hasClass target c w' = hasClass target c w)
  ∧ timers w' = timers w
  ∧ (∀ batch, deliver observer batch w' = w').
Proof.
  intros Hl Hconn Hinc Hcor w'.
  assert (w' = disconnect observer
                 (handleCorrectAnswer (o_question o) target w)) as ->.
  { subst w'. unfold deliver. rewrite Hl, Hconn. unfold observerCallback.
    cbn [fold_left]. unfold onMutation. cbn. by rewrite Hinc, Hcor. }
  unfold handleCorrectAnswer.
  assert (effects (addClass target "lilac-correct-answer" w) = effects w
          ∧ timers (addClass target "lilac-correct-answer" w) = timers w
          ∧ mutationObservers (addClass target "lilac-correct-answer" w)
            = mutationObservers w) as (He & Ht & Hm)
    by (unfold addClass; by case_match).
  split; [cbn; by rewrite He|]. split; [|split; [|split]].
  - change (hasClass target "lilac-correct-answer"
              (addClass target "lilac-correct-answer" w) = true).
    rewrite hasClass_addClass, bool_decide_eq_true_2 by done.
    apply orb_true_r.
  - intros c Hc.
    change (hasClass target c (addClass target "lilac-correct-answer" w)
            = hasClass target c w).
    rewrite hasClass_addClass.
    destruct (String.eqb_spec c "lilac-correct-answer"); [done|].
    by rewrite andb_false_r, orb_false_r.
  - exact Ht.
  - intros batch.
    eapply deliver_disconnected;
      [apply disconnect_lookup with w; [exact Hm|done]|done].
Qed.

Lemma watcher_correct_answer_witness :
  let w := exec (PageChanged thirdItemPage
                   {[7%nat := ["wpProQuiz_answerCorrect"]]} (Some []))
             busyWorld in
  effects (deliver 0 [classMutation 7] w) = effects w ++ [NavDisabled false].
Proof.
  intros w.
  apply (watcher_correct_answer w 0 7
           (mkObserver (Some demoQuestion) 7 true)); reflexivity.
Defined.

(** Property X18.  A batch in which every record is either not a change of
    the class attribute or concerns an element that carries neither marker
    leaves the world unchanged, so the watcher stays armed. *)
Theorem watcher_stays_armed (w : World) (observer : nat)
    (batch : list MutationRecord) :
  Forall (λ m, m_type m ≠ attributes
               ∨ m_attributeName m ≠ Some "class"
               ∨ (hasClass (m_target m) "wpProQuiz_answerIncorrect" w = false
                  ∧ hasClass (m_target m) "wpProQuiz_answerCorrect" w = false))
    batch →
  deliver observer batch w = w.
Proof.
  intros Hall. unfold deliver.
  destruct (mutationObservers w !! observer) as [o|]; [|done].
  destruct (o_connected o); [|done]. unfold observerCallback.
  induction Hall as [|m batch Hm _ IH]; [done|]. cbn [fold_left].
  assert (onMutation observer (o_question o) w m = w) as ->; [|done].
  unfold onMutation. destruct (m_type m); try done.
  destruct (m_attributeName m) as [name|]; [|done].
  destruct (String.eqb_spec name "class") as [->|]; [|done].
  destruct Hm as [?|[?|[-> ->]]]; done.
Qed.

Lemma watcher_stays_armed_witness :
  deliver 0 [classMutation 7; mkMutation childList None 7] busyWorld
  = busyWorld.
Proof.
  apply (watcher_stays_armed busyWorld).
  apply Forall_cons. split; [right; right; split; reflexivity|].
  apply Forall_cons. split; [left; discriminate|]. by apply Forall_nil.
Defined.

(** Property X19.  When the watched question has no hint button, or the input
    was in no list item, an incorrect answer only disables navigation: no
    hint is forced and no timer is touched, and the watcher is detached all
    the same. *)
Theorem incorrect_without_hint_button (w : World) (observer target : nat)
    (o : Observer) :
  mutationObservers w !! observer = Some o → o_connected o = true →
  (∀ q, o_question o = Some q → q_tip q = false) →
  hasClass target "wpProQuiz_answerIncorrect" w = true →
  let w' := deliver observer [classMutation target] w in
  effects w' = effects w ++ [NavDisabled true]
  ∧ timers w' = timers w
  ∧ debounceTimers (state w') = debounceTimers (state w)
  ∧ (∀ batch, deliver observer batch w' = w').
Proof.
  intros Hl Hconn Htip Hinc w'.
  assert (w' = disconnect observer (emit (NavDisabled true) w)) as ->.
  { subst w'. unfold deliver. rewrite Hl, Hconn. unfold observerCallback.
    cbn [fold_left]. unfold onMutation. cbn. rewrite Hinc.
    unfold handleIncorrectAnswer, showHintRequirement.
    destruct (o_question o) as [q|]; [|done]. by rewrite (Htip q). }
  split; [done|]. split; [done|]. split; [done|].
  intros batch.
  eapply deliver_disconnected; [by apply disconnect_lookup with w|done].
Qed.

Lemma incorrect_without_hint_button_witness :
  let w := with_mutationObservers [mkObserver None 7 true] markedWorld in
  effects (deliver 0 [classMutation 7] w) = effects w ++ [NavDisabled true].
Proof.
  intros w.
  apply (incorrect_without_hint_button w 0 7 (mkObserver None 7 true));
    try reflexivity.
  intros q Hq. discriminate Hq.
Defined.

Lemma onNavigationClick_observers (w : World) :
  observers (state (onNavigationClick w)) = observers (state w)
  ∧ mutationObservers (onNavigationClick w) = mutationObservers w.
Proof.
  unfold onNavigationClick, debounce.
  by destruct (initialized (state w)),
    (debounceTimers (state w) !! "navigation").
Qed.

Lemma onMutation_observers observer question (w : World) m :
  observers (state (onMutation observer question w m)) = observers (state w)
  ∧ length (mutationObservers (onMutation observer question w m))
    = length (mutationObservers w).
Proof.
  unfold onMutation. repeat case_match; try done.
  - cbn [disconnect with_mutationObservers state mutationObservers].
    rewrite length_alter.
    unfold handleIncorrectAnswer, showHintRequirement.
    destruct question as [q|]; [|done]. destruct (q_tip q); [|done].
    by destruct (onNavigationClick_observers
                   (emit (HintRequired q) (emit (NavDisabled true) w)))
      as [-> ->].
  - cbn [disconnect with_mutationObservers state mutationObservers].
    rewrite length_alter. unfold handleCorrectAnswer, addClass.
    by case_match.
Qed.

Lemma deliver_observers (w : World) (observer : nat)
    (batch : list MutationRecord) :
  observers (state (deliver observer batch w)) = observers (state w)
  ∧ length (mutationObservers (deliver observer batch w))
    = length (mutationObservers w).
Proof.
  unfold deliver.
  destruct (mutationObservers w !! observer) as [o|]; [|done].
  destruct (o_connected o); [|done]. unfold observerCallback.
  generalize (o_question o). intros question.
  revert w. induction batch as [|m batch IH]; intros w; [done|].
  cbn [fold_left].
  destruct (onMutation_observers observer question w m) as [Ho Hl].
  destruct (IH (onMutation observer question w m)) as [-> ->]. done.
Qed.

(** Property X20.  Handling a batch never shortens [state.observers] and
    creates no observer: a connected watcher of a reachable world is still
    listed after the batch that resolved and disconnected it. *)
Theorem resolved_watcher_stays_listed (w : World) (observer : nat)
    (o : Observer) (batch : list MutationRecord) :
  reachable w →
  mutationObservers w !! observer = Some o → o_connected o = true →
  observer ∈ observers (state (deliver observer batch w))
  ∧ observers (state (deliver observer batch w)) = observers (state w)
  ∧ length (mutationObservers (deliver observer batch w))
    = length (mutationObservers w).
Proof.
  intros (_ & Io & _)%reachable_inv Hl Hc.
  destruct (deliver_observers w observer batch) as [Ho Hlen].
  rewrite Ho. split; [by apply (Io observer o)|done].
Qed.

Lemma resolved_watcher_stays_listed_witness :
  mutationObservers
    (deliver 0 [classMutation 7] markedWorld) !! 0%nat
  = Some (mkObserver (Some demoQuestion) 7 false)
  ∧ (0%nat ∈ observers (state (deliver 0 [classMutation 7] markedWorld))).
Proof.
  split; [vm_compute; reflexivity|].
  apply (resolved_watcher_stays_listed markedWorld 0
           (mkObserver (Some demoQuestion) 7 true) [classMutation 7]);
    [|vm_compute; reflexivity|reflexivity].
  unfold markedWorld. apply reach_step; [apply busyWorld_reachable|exact I].
Defined.

Lemma page_step_refl (w : World) : page_step w w.
Proof.
  exists (initialized (state w)), (currentQuestion (state w)),
    (mediaCache (state w)), (container w), [].
  split; [|by apply Forall_nil]. rewrite app_nil_r.
  by destruct w as [[] ? ? ? ? ? ? ? ? ? ?].
Qed.

Lemma page_step_trans (w1 w2 w3 : World) :
  page_step w1 w2 → page_step w2 w3 → page_step w1 w3.
Proof.
  intros (i & c & m & b & l & -> & Hl) (i' & c' & m' & b' & l' & -> & Hl').
  exists i', c', m', b', (l ++ l'). cbn. rewrite app_assoc.
  split; [done|]. by apply Forall_app.
Qed.

Lemma displayMedia_page_step (m : JsVal) (w : World) :
  page_step w (world_of (displayMedia m w)).
Proof.
  unfold displayMedia. destruct (container w); [|apply page_step_refl].
  destruct (get_prop m "type"); [|apply page_step_refl].
  destruct w as [[i c mc o d r] h now ts n mos doc cls box eff f].
  eexists i, c, mc, _, []. cbn. rewrite app_nil_r.
  split; [reflexivity|]. by apply Forall_nil.
Qed.

Lemma displayFallbackMedia_page_step (w : World) :
  page_step w (displayFallbackMedia w).
Proof.
  unfold displayFallbackMedia. destruct (container w); [|apply page_step_refl].
  exists (initialized (state w)), (currentQuestion (state w)),
    (mediaCache (state w)), (Some fallbackMarkup), [].
  split; [|by apply Forall_nil]. rewrite app_nil_r.
  by destruct w as [[] ? ? ? ? ? ? ? ? ? ?].
Qed.

Lemma state_page_step (f : State → State) (w : World) :
  (∀ s, observers (f s) = observers s
        ∧ debounceTimers (f s) = debounceTimers s
        ∧ retryCount (f s) = retryCount s) →
  page_step w (with_state f w).
Proof.
  intros Hf. destruct (Hf (state w)) as (Ho & Hd & Hr).
  exists (initialized (f (state w))), (currentQuestion (f (state w))),
    (mediaCache (f (state w))), (container w), [].
  split; [|by apply Forall_nil]. rewrite app_nil_r.
  unfold with_state. rewrite <- Ho, <- Hd, <- Hr.
  by destruct (f (state w)).
Qed.

Lemma request_page_step (url action token : string) (q : Prim) (w : World) :
  page_step w (emit (Fetch url action q token) w).
Proof.
  exists (initialized (state w)), (currentQuestion (state w)),
    (mediaCache (state w)), (container w), [Fetch url action q token].
  split; [|by apply Forall_singleton].
  by destruct w as [[] ? ? ? ? ? ? ? ? ? ?].
Qed.

Lemma loadQuestionMedia_page_step (q : Prim) (force : bool) (w : World) :
  page_step w (world_of (loadQuestionMedia q force w)).
Proof.
  unfold loadQuestionMedia.
  destruct (truthy_prim q); cbn [negb]; [|apply page_step_refl].
  destruct force; cbn [negb world_of]; [apply request_page_step|].
  unfold getCachedMedia.
  assert (page_step w
            (with_state (λ s, set_mediaCache (delete q (mediaCache s)) s) w))
    as Hevict by by apply state_page_step.
  destruct (mediaCache (state w) !! q) as [e|]; [case_bool_decide|].
  - destruct (truthy (data e)); [apply displayMedia_page_step|].
    apply request_page_step.
  - eapply page_step_trans; [exact Hevict|apply request_page_step].
  - eapply page_step_trans; [exact Hevict|apply request_page_step].
Qed.

Lemma navigationAction_page_step (w : World) :
  page_step w (world_of (navigationAction w)).
Proof.
  unfold navigationAction. case_match; [|apply page_step_refl].
  eapply page_step_trans; [|apply loadQuestionMedia_page_step].
  by apply state_page_step.
Qed.

Lemma initialize_page_step (w : World) :
  page_step w (world_of (initialize w)).
Proof.
  unfold initialize. repeat case_match; try apply page_step_refl.
  - eapply page_step_trans; [|apply loadQuestionMedia_page_step].
    by apply state_page_step.
  - by apply state_page_step.
Qed.

Lemma onResponse_page_step (q : Prim) (r : Response) (w : World) :
  page_step w (world_of (onResponse q r w)).
Proof.
  rewrite onResponse_spec. cbn [world_of]. case_match.
  - eapply page_step_trans; [|apply displayMedia_page_step].
    by apply state_page_step.
  - apply displayFallbackMedia_page_step.
Qed.

Lemma page_step_unwatched (w w' : World) :
  page_step w w' → unwatched w → unwatched w'.
Proof.
  intros (i & c & m & b & l & -> & Hl) (He & Hm & Ho & Ht & Hf).
  repeat split; try done. cbn. by apply Forall_app.
Qed.

Lemma Forall_filter_keeps {A} (P Q : A → Prop) `{!∀ x, Decision (Q x)}
    (l : list A) :
  Forall P l → Forall P (filter Q l).
Proof.
  rewrite !Forall_forall. intros HP x [_ Hin]%list_elem_of_filter. auto.
Qed.

Lemma onNavigationClick_unwatched (w : World) :
  unwatched w → unwatched (onNavigationClick w).
Proof.
  intros (He & Hm & Ho & Ht & Hf). unfold onNavigationClick.
  destruct (initialized (state w)); [|done].
  destruct (debounce_timers "navigation" FNavigation debounceDelay w)
    as (Htm & _).
  assert (host (debounce "navigation" FNavigation debounceDelay w) = host w
          ∧ mutationObservers (debounce "navigation" FNavigation debounceDelay w)
            = mutationObservers w
          ∧ observers (state (debounce "navigation" FNavigation debounceDelay w))
            = observers (state w)
          ∧ effects (debounce "navigation" FNavigation debounceDelay w)
            = effects w) as (Hh & Hm' & Ho' & He').
  { unfold debounce. by destruct (debounceTimers (state w) !! "navigation"). }
  unfold unwatched. rewrite Hh, Hm', Ho', He', Htm.
  repeat split; try done.
  apply Forall_app. split; [by apply Forall_filter_keeps|].
  by apply Forall_singleton.
Qed.

Lemma fireTimer_unwatched (t : Timer) (w : World) :
  t ∈ timers w → unwatched w → unwatched (fireTimer t w).
Proof.
  intros Hin (He & Hm & Ho & Ht & Hf).
  assert (t_func t = FNavigation) as Hfunc
    by by apply (proj1 (Forall_forall _ _) Ht).
  unfold fireTimer, timerCallback. rewrite Hfunc. cbn [runFunc].
  match goal with |- context [navigationAction ?w0] =>
    assert (unwatched w0) as Hw0;
    [|pose proof (page_step_unwatched _ _ (navigationAction_page_step w0) Hw0)
        as Hun;
      destruct (navigationAction w0) as [w'|w']; exact Hun] end.
  repeat split; try done. cbn. by apply Forall_filter_keeps.
Qed.

Lemma runTimers_unwatched (T : Z) (fuel : nat) (w : World) :
  unwatched w → unwatched (runTimers fuel T w).
Proof.
  revert w. induction fuel as [|fuel IH]; [done|]. intros w Hun. cbn.
  destruct (nextDue T (timers w)) as [t|] eqn:E; [|done].
  apply nextDue_Some in E as [Hin _]. by apply IH, fireTimer_unwatched.
Qed.

Lemma cleanup_unwatched (w : World) : unwatched w → unwatched (cleanup w).
Proof.
  intros (He & Hm & Ho & Ht & Hf).
  destruct (cleanup_shape w) as (Htm & _ & _ & _ & Ho' & He' & _ & Hlen & _).
  assert (host (cleanup w) = host w) as Hh.
  { unfold cleanup. rewrite foldr_clearTimeout.
    match goal with |- context [foldr disconnect ?w0 ?ids] =>
      destruct (foldr_disconnect ids w0) as (mos & -> & _) end.
    done. }
  unfold unwatched. rewrite Hh, Ho', He', Htm.
  repeat split; try done.
  - rewrite Hm in Hlen. by destruct (mutationObservers (cleanup w)).
  - by apply Forall_filter_keeps.
Qed.

Lemma exec_unwatched (e : Event) (w : World) :
  unwatched w → unwatched (exec e w).
Proof.
  intros Hun. destruct e; cbn.
  - by apply page_step_unwatched with w, Hun; apply initialize_page_step.
  - by apply onNavigationClick_unwatched.
  - assert (onInputClick input w = w) as ->.
    { unfold onInputClick. destruct Hun as (-> & _).
      by rewrite andb_false_r. }
    case_bool_decide; [|done]. by apply onNavigationClick_unwatched.
  - unfold advance.
    pose proof (runTimers_unwatched T (length (timers w)) w Hun) as H'.
    exact H'.
  - assert (deliver observer batch w = w) as ->; [|done].
    unfold deliver. destruct Hun as (_ & -> & _). by rewrite lookup_nil.
  - by apply page_step_unwatched with w, Hun; apply onResponse_page_step.
  - destruct Hun as (He & Hm & Ho & Ht & Hf). by repeat split.
  - by apply cleanup_unwatched.
Qed.

(** Property X21.  When the host page switches hint enforcement off, no
    sequence of events ever creates an observer, starts a timer other than
    the navigation timer, disables navigation or forces a hint: the only
    effects are media requests. *)
Theorem no_enforcement_no_watchers (h : HostGlobals) (now : Z) (root : Elem)
    (cls : gmap nat (list string)) (c : option (list MediaNode))
    (es : list Event) :
  enforceHint h = false →
  let w := run es (initialWorld h now root cls c) in
  mutationObservers w = [] ∧ observers (state w) = []
  ∧ Forall (λ t, t_func t = FNavigation) (timers w)
  ∧ Forall is_fetch (effects w).
Proof.
  intros Hh.
  assert (unwatched (initialWorld h now root cls c)) as Hinit
    by (repeat split; try done; by apply Forall_nil).
  revert Hinit. generalize (initialWorld h now root cls c).
  induction es as [|e es IH]; intros w Hun.
  - by destruct Hun as (_ & ? & ? & ? & ?).
  - cbn. by apply IH, exec_unwatched.
Qed.

Lemma no_enforcement_no_watchers_witness :
  mutationObservers
    (run [Frame; ClickInput demoInput; Tick 500;
          Mutations 0 [classMutation 7]]
       (initialWorld (mkHost "/ajax" "n" false) 0 thirdItemPage
          {[7%nat := ["wpProQuiz_answerIncorrect"]]} (Some [])))
  = [].
Proof.
  apply (no_enforcement_no_watchers (mkHost "/ajax" "n" false) 0 thirdItemPage
           {[7%nat := ["wpProQuiz_answerIncorrect"]]} (Some [])
           [Frame; ClickInput demoInput; Tick 500;
            Mutations 0 [classMutation 7]]).
  reflexivity.
Defined.

(** * Debouncer, continued *)

(** Properties that only depend on the timers, the registry and the handle
    counter hold in every reachable world as soon as the debouncer's own
    steps keep them. *)
Section TimingInvariant.
Context (P : World → Prop).
Hypothesis P_same : ∀ w w', same_timing w w' → P w → P w'.
Hypothesis P_clock : ∀ t w, P w → P (with_clock t w).
Hypothesis P_debounce : ∀ key func delay w, P w → P (debounce key func delay w).
Hypothesis P_fire : ∀ t w, t ∈ timers w → P w → P (fireTimer t w).
Hypothesis P_cleanup : ∀ w, P w → P (cleanup w).

Lemma timing_onNavigationClick (w : World) : P w → P (onNavigationClick w).
Proof. unfold onNavigationClick. case_match; auto. Qed.

Lemma timing_onInputClick (input : InputEl) (w : World) :
  P w → P (onInputClick input w).
Proof. unfold onInputClick. case_match; auto. Qed.

Lemma timing_onMutation observer question (w : World) m :
  P w → P (onMutation observer question w m).
Proof.
  intros HP. unfold onMutation. repeat case_match; try done.
  - apply P_same with (handleIncorrectAnswer question (m_target m) w);
      [by repeat split|].
    unfold handleIncorrectAnswer, showHintRequirement.
    repeat case_match;
      try (apply P_same with w; [by repeat split|done]).
    apply timing_onNavigationClick.
    apply P_same with w; [by repeat split|done].
  - apply P_same with w; [|done].
    unfold handleCorrectAnswer, addClass. case_match; by repeat split.
Qed.

Lemma timing_deliver observer batch (w : World) :
  P w → P (deliver observer batch w).
Proof.
  unfold deliver. destruct (mutationObservers w !! observer) as [o|]; [|done].
  destruct (o_connected o); [|done]. unfold observerCallback.
  generalize (o_question o). intros question.
  revert w. induction batch as [|m batch IH]; [done|]. intros w HP.
  cbn [fold_left]. by apply IH, timing_onMutation.
Qed.

Lemma timing_runTimers (T : Z) (fuel : nat) (w : World) :
  P w → P (runTimers fuel T w).
Proof.
  revert w. induction fuel as [|fuel IH]; [done|]. intros w HP. cbn.
  destruct (nextDue T (timers w)) as [t|] eqn:E; [|done].
  apply nextDue_Some in E as [Hin _]. auto.
Qed.

Lemma timing_exec (e : Event) (w : World) : P w → P (exec e w).
Proof.
  intros HP. destruct e; cbn.
  - by apply P_same with w; [apply initialize_timing|].
  - by apply timing_onNavigationClick.
  - case_bool_decide.
    + by apply timing_onNavigationClick, timing_onInputClick.
    + by apply timing_onInputClick.
  - by apply P_clock, timing_runTimers.
  - by apply timing_deliver.
  - by apply P_same with w; [apply onResponse_timing|].
  - by apply P_same with w; [repeat split|].
  - by apply P_cleanup.
Qed.

Lemma timing_reachable (w : World) :
  (∀ h now root cls c, P (initialWorld h now root cls c)) →
  reachable w → P w.
Proof.
  intros Hinit. induction 1; [apply Hinit|by apply timing_exec].
Qed.
End TimingInvariant.

Lemma debounce_registry_ok (key : string) (func : Func) (delay : Z)
    (w : World) :
  registry_ok w → registry_ok (debounce key func delay w).
Proof.
  intros [Hfresh Hinj].
  destruct (debounce_timers key func delay w) as (_ & Hn & Hr & _).
  unfold registry_ok. rewrite Hn, Hr. split.
  - intros k id. rewrite lookup_insert. case_decide.
    + intros [= <-]. lia.
    + intros Hk. specialize (Hfresh k id Hk). lia.
  - intros k k' id. rewrite !lookup_insert.
    repeat case_decide; try congruence.
    + intros [= <-] Hk'. specialize (Hfresh k' _ Hk'). lia.
    + intros Hk [= <-]. specialize (Hfresh k _ Hk). lia.
    + apply Hinj.
Qed.

Lemma registry_ok_reachable (w : World) : reachable w → registry_ok w.
Proof.
  apply timing_reachable.
  - intros w1 w2 (_ & Hn & Hr & _). unfold registry_ok. by rewrite Hn, Hr.
  - done.
  - apply debounce_registry_ok.
  - intros t w0 _ [Hfresh Hinj].
    destruct (fireTimer_shape t w0) as (_ & Hn & Hr & _).
    unfold registry_ok. rewrite Hn.
    destruct Hr as [-> | ->]; [|done]. split.
    + intros k id [_ Hk]%lookup_delete_Some. by apply (Hfresh k).
    + intros k k' id [_ Hk]%lookup_delete_Some [_ Hk']%lookup_delete_Some.
      by apply (Hinj k k' id).
  - intros w0 _. destruct (cleanup_shape w0) as (_ & _ & Hr & _).
    unfold registry_ok. rewrite Hr. split; intros *; by rewrite lookup_empty.
  - intros h now root cls c. split; intros *; cbn; by rewrite lookup_empty.
Qed.

Lemma debounce_other_names (key key' : string) (func : Func) (delay : Z)
    (w : World) :
  timers_ok w → registry_ok w → key ≠ key' →
  pending_under key' (debounce key func delay w) = pending_under key' w.
Proof.
  intros (Hreg & _ & _) [_ Hinj] Hne.
  destruct (debounce_timers key func delay w) as (Ht & _).
  unfold pending_under. rewrite Ht, filter_app.
  rewrite (filter_cons_False _ (mkTimer _ _ key func)) by (cbn; congruence).
  rewrite filter_nil, app_nil_r, list_filter_filter.
  apply filter_ext_elem. intros t Hin. split; [by intros [? _]|].
  intros Hk. split; [done|]. intros Hsame. apply Hne.
  apply (Hinj key key' (t_id t)); [done|]. rewrite <- Hk. by apply Hreg.
Qed.

(** Property X22.  In a reachable world, scheduling under one name never
    cancels or changes the timer pending under another name. *)
Theorem debounce_leaves_other_names (w : World) (key key' : string)
    (func : Func) (delay : Z) :
  reachable w → key ≠ key' →
  pending_under key' (debounce key func delay w) = pending_under key' w.
Proof.
  intros Hreach Hne. apply debounce_other_names; [| |done].
  - by apply reachable_inv in Hreach as [? _].
  - by apply registry_ok_reachable.
Qed.

Lemma debounce_leaves_other_names_witness :
  pending_under "navigation"
    (debounce "answer-check-2" (FAnswerCheck None demoInput) 50 busyWorld)
  = pending_under "navigation" busyWorld.
Proof.
  apply (debounce_leaves_other_names busyWorld "answer-check-2" "navigation");
    [apply busyWorld_reachable|discriminate].
Defined.

Lemma answerCheckName_inj (q1 q2 : option QuestionEl) :
  answerCheckName q1 = answerCheckName q2 → index_of q1 = index_of q2.
Proof.
  unfold answerCheckName. intros Heq.
  apply String.app_inj in Heq. by apply (inj pretty) in Heq.
Qed.

Lemma onInputClick_debounce (input : InputEl) (w : World) :
  initialized (state w) = true → enforceHint (host w) = true →
  onInputClick input w
  = debounce (answerCheckName (i_question input))
      (FAnswerCheck (i_question input) input) 50 w.
Proof. intros Hi He. unfold onInputClick. by rewrite Hi, He. Qed.

Lemma debounce_gates (key : string) (func : Func) (delay : Z) (w : World) :
  initialized (state (debounce key func delay w)) = initialized (state w)
  ∧ host (debounce key func delay w) = host w.
Proof. unfold debounce. by destruct (debounceTimers (state w) !! key). Qed.

(** Property X23.  Clicks on two answer inputs whose list items have
    different sibling indices leave two pending answer checks, one per name;
    when the indices agree the second click replaces the first check, also
    when the inputs belong to different questions. *)
Theorem answer_checks_per_question (w : World) (i1 i2 : InputEl) :
  reachable w → initialized (state w) = true → enforceHint (host w) = true →
  let w' := onInputClick i2 (onInputClick i1 w) in
  let check1 :=
    mkTimer (nextTimer w) (clock w + 50) (answerCheckName (i_question i1))
      (FAnswerCheck (i_question i1) i1) in
  let check2 :=
    mkTimer (S (nextTimer w)) (clock w + 50)
      (answerCheckName (i_question i2)) (FAnswerCheck (i_question i2) i2) in
  (index_of (i_question i1) ≠ index_of (i_question i2) →
     pending_under (answerCheckName (i_question i1)) w' = [check1]
     ∧ pending_under (answerCheckName (i_question i2)) w' = [check2])
  ∧ (index_of (i_question i1) = index_of (i_question i2) →
     pending_under (answerCheckName (i_question i1)) w' = [check2]).
Proof.
  intros Hreach Hi He w' check1 check2.
  pose proof (reachable_inv w Hreach) as [Hok _].
  pose proof (registry_ok_reachable w Hreach) as Hreg.
  set (n1 := answerCheckName (i_question i1)) in *.
  set (n2 := answerCheckName (i_question i2)) in *.
  set (w1 := debounce n1 (FAnswerCheck (i_question i1) i1) 50 w).
  destruct (debounce_gates n1 (FAnswerCheck (i_question i1) i1) 50 w)
    as [Hi1 Hh1].
  destruct (debounce_timers n1 (FAnswerCheck (i_question i1) i1) 50 w)
    as (_ & Hn1 & _ & Hc1 & _).
  assert (w' = debounce n2 (FAnswerCheck (i_question i2) i2) 50 w1) as ->.
  { subst w'. rewrite (onInputClick_debounce i1 w) by done. fold n1 w1.
    rewrite onInputClick_debounce; [done| |].
    - subst w1. by rewrite Hi1.
    - subst w1. by rewrite Hh1. }
  pose proof (debounce_ok n1 (FAnswerCheck (i_question i1) i1) 50 w Hok)
    as Hok1.
  pose proof (debounce_registry_ok n1 (FAnswerCheck (i_question i1) i1) 50 w
                Hreg) as Hreg1.
  assert (pending_under n2
            (debounce n2 (FAnswerCheck (i_question i2) i2) 50 w1) = [check2])
    as Hp2.
  { rewrite debounce_pending by done. subst check2 w1. by rewrite Hn1, Hc1. }
  split.
  - intros Hidx. split; [|done].
    rewrite debounce_other_names; [by apply debounce_pending|done|done|].
    intros Heq. apply Hidx. symmetry. by apply answerCheckName_inj.
  - intros Hidx.
    assert (n1 = n2) as -> by (subst n1 n2; unfold answerCheckName; by rewrite Hidx).
    done.
Qed.

Lemma answer_checks_per_question_witness :
  let other := mkInput (Some (mkQuestion 5 false)) (Some 8%nat) in
  length (pending_under (answerCheckName (Some demoQuestion))
            (onInputClick other (onInputClick demoInput busyWorld))) = 1%nat
  ∧ length (pending_under (answerCheckName (Some (mkQuestion 5 false)))
              (onInputClick other (onInputClick demoInput busyWorld)))
    = 1%nat.
Proof.
  intros other.
  destruct (answer_checks_per_question busyWorld demoInput other
              busyWorld_reachable eq_refl eq_refl) as [Hdiff _].
  destruct Hdiff as [H1 H2]; [vm_compute; discriminate|].
  cbn [i_question demoInput other] in H1, H2.
  split; [by rewrite H1|by rewrite H2].
Defined.

(** Property X24.  When the answer check of an input without enclosing
    answer wrapper fires, it raises before anything is registered: no
    observer is created and nothing is sent, the timer is gone, but its name
    stays registered with the handle of the timer that has fired. *)
Theorem answer_check_without_wrapper (w : World) (t : Timer)
    (question : option QuestionEl) (input : InputEl) :
  reachable w → t ∈ timers w →
  t_func t = FAnswerCheck question input → i_wrapper input = None →
  let w' := fireTimer t w in
  mutationObservers w' = mutationObservers w
  ∧ observers (state w') = observers (state w)
  ∧ effects w' = effects w
  ∧ fired w' = fired w ++ [t]
  ∧ pending_under (t_key t) w' = []
  ∧ debounceTimers (state w') !! t_key t = Some (t_id t).
Proof.
  intros [Hok _]%reachable_inv Hin Hf Hw w'.
  destruct (fire_same (t_key t) t w Hok Hin eq_refl) as [Hp _].
  assert (w' = record_fired t
                 (with_clock (Z.max (clock w) (t_due t))
                    (clearTimeout (t_id t) w))) as Hw'.
  { subst w'. unfold fireTimer, timerCallback. rewrite Hf. cbn [runFunc].
    unfold checkAnswerAndEnforceHint. by rewrite Hw. }
  split; [by rewrite Hw'|]. split; [by rewrite Hw'|].
  split; [by rewrite Hw'|]. split; [by rewrite Hw'|]. split; [done|].
  rewrite Hw'. cbn. destruct Hok as (Hreg & _). by apply Hreg.
Qed.

Lemma answer_check_without_wrapper_witness :
  let t := mkTimer 0 50 "answer-check-2"
             (FAnswerCheck (Some demoQuestion) strayInput) in
  mutationObservers (fireTimer t strayWorld) = []
  ∧ debounceTimers (state (fireTimer t strayWorld)) !! "answer-check-2"
    = Some 0%nat.
Proof.
  intros t.
  assert (reachable strayWorld) as Hreach.
  { unfold strayWorld. repeat (apply reach_step; [|exact I]).
    apply reach_init. }
  destruct (answer_check_without_wrapper strayWorld t (Some demoQuestion)
              strayInput Hreach) as (Hm & _ & _ & _ & _ & Hr);
    [vm_compute; left|reflexivity|reflexivity|].
  split; [rewrite Hm; vm_compute; reflexivity|exact Hr].
Defined.
